(* ===================================================================== *)
(* Project Atlas desktop environment: the window / desktop state machine  *)
(* of src/components/desktop/DesktopView.tsx, as a shallow embedding.     *)
(*                                                                         *)
(* Modelling conventions                                                   *)
(*  - The React state of DesktopView (windows, activeId, nextZIndex,       *)
(*    activeDesktopId) is a record; every handler is a pure function from  *)
(*    the state its closure was rendered with to the next state.  One      *)
(*    handler runs per UI event and the component re-renders in between,   *)
(*    so the nextZIndex / activeDesktopId captured by a closure are the    *)
(*    current ones.                                                        *)
(*  - `windows : Record<string, WindowState>` is a gmap from string keys.  *)
(*    `{...prev, [k]: v}` is insert, `delete copy[k]` is delete,           *)
(*    `Object.keys(prev).length` is size.  The order of `Object.values`    *)
(*    is not modelled.  A read `o[k]` on such an object also sees the      *)
(*    properties every object inherits (`plainGet`); a Map does not.       *)
(*  - A JS object that may lack properties (updateWindowState takes        *)
(*    `updates: any`, and `{...undefined}` is `{}`) is a record of         *)
(*    optional fields: None is an absent property.                         *)
(*  - Pixel coordinates, sizes and z-indices are JS numbers that only ever *)
(*    hold integers here; they are modelled in Z.                          *)
(* ===================================================================== *)

From Stdlib Require Import ZArith NArith.
From Stdlib.Strings Require Import Ascii Byte.
From Stdlib Require QArith_base.
From stdpp Require Import gmap strings list fin_maps.

Local Open Scope Z_scope.

(* --------------------------------------------------------------------- *)
(* Data model                                                              *)
(* --------------------------------------------------------------------- *)

(** `position: { x: number; y: number }` *)
Record Point := { x : Z; y : Z }.

(** `size: { width: number; height: number }` *)
Record Size := { width : Z; height : Z }.

(** `window.innerWidth` / `window.innerHeight`, read when a handler runs. *)
Record Viewport := { innerWidth : Z; innerHeight : Z }.

(** JS truthiness of a possibly absent boolean property: `undefined` is
    falsy. *)
Definition truthy (b : option bool) : bool :=
  match b with
  | Some v => v
  | None => false
  end.

Module WindowState.

(** `interface WindowState`, each property possibly absent. *)
Record t := mk {
  id : option string;
  position : option Point;
  size : option Size;
  zIndex : option Z;
  isMinimized : option bool;
  isMaximized : option bool;
  isResizing : option bool;
  isDragging : option bool;
  desktopId : option string;
  opacity : option Z
}.

(** `{}` *)
Definition empty : t :=
  mk None None None None None None None None None None.

(** `{...undefined}` is `{}`, `{...w}` copies the properties of `w`. *)
Definition ofLookup (o : option t) : t :=
  match o with
  | Some w => w
  | None => empty
  end.

(** One property of `{...a, ...b}`: the one of `b` when it has it. *)
Definition over {A : Type} (b a : option A) : option A :=
  match b with
  | Some v => Some v
  | None => a
  end.

(** `{...a, ...b}` *)
Definition spread (a b : t) : t :=
  mk (over (id b) (id a))
     (over (position b) (position a))
     (over (size b) (size a))
     (over (zIndex b) (zIndex a))
     (over (isMinimized b) (isMinimized a))
     (over (isMaximized b) (isMaximized a))
     (over (isResizing b) (isResizing a))
     (over (isDragging b) (isDragging a))
     (over (desktopId b) (desktopId a))
     (over (opacity b) (opacity a)).

(** `{...w, position: p}` and its siblings, for the properties the
    handlers override. *)
Definition withPosition (p : Point) (w : t) : t :=
  mk (id w) (Some p) (size w) (zIndex w) (isMinimized w) (isMaximized w)
     (isResizing w) (isDragging w) (desktopId w) (opacity w).

Definition withSize (s : Size) (w : t) : t :=
  mk (id w) (position w) (Some s) (zIndex w) (isMinimized w) (isMaximized w)
     (isResizing w) (isDragging w) (desktopId w) (opacity w).

Definition withZIndex (z : Z) (w : t) : t :=
  mk (id w) (position w) (size w) (Some z) (isMinimized w) (isMaximized w)
     (isResizing w) (isDragging w) (desktopId w) (opacity w).

Definition withIsMinimized (b : bool) (w : t) : t :=
  mk (id w) (position w) (size w) (zIndex w) (Some b) (isMaximized w)
     (isResizing w) (isDragging w) (desktopId w) (opacity w).

Definition withIsMaximized (b : bool) (w : t) : t :=
  mk (id w) (position w) (size w) (zIndex w) (isMinimized w) (Some b)
     (isResizing w) (isDragging w) (desktopId w) (opacity w).

Definition withDesktopId (d : string) (w : t) : t :=
  mk (id w) (position w) (size w) (zIndex w) (isMinimized w) (isMaximized w)
     (isResizing w) (isDragging w) (Some d) (opacity w).

End WindowState.

#[global] Instance Point_eq_dec : EqDecision Point.
Proof. solve_decision. Defined.

#[global] Instance Size_eq_dec : EqDecision Size.
Proof. solve_decision. Defined.

#[global] Instance WindowState_eq_dec : EqDecision WindowState.t.
Proof. solve_decision. Defined.

(** The property names every plain object inherits from
    `Object.prototype`.  Each holds a function, or for `__proto__` the
    prototype itself: a truthy value with no property of a window or of a
    theme. *)
Definition objectPrototypeNames : list string :=
  [ "constructor"; "hasOwnProperty"; "isPrototypeOf"; "propertyIsEnumerable";
    "toLocaleString"; "toString"; "valueOf"; "__proto__";
    "__defineGetter__"; "__defineSetter__"; "__lookupGetter__";
    "__lookupSetter__" ].

Definition inheritsProperty (key : string) : bool :=
  existsb (fun name => bool_decide (name = key)) objectPrototypeNames.

(** `o[key]` on the store, a plain object, as its readers use it (a
    truthiness test, a spread, a read of a window property): the own
    record when there is one; for an inherited name a truthy value that
    spreads to `{}` and has no window property; `undefined` otherwise. *)
Definition plainGet (o : gmap string WindowState.t) (key : string)
    : option WindowState.t :=
  match o !! key with
  | Some w => Some w
  | None => if inheritsProperty key then Some WindowState.empty else None
  end.

(** `const Z_INDEX_BASE = 10;` *)
Definition Z_INDEX_BASE : Z := 10.

(** The hooks of DesktopView that the window manager reads and writes:
    `windows`, `activeId`, `nextZIndex`, `activeDesktopId`. *)
Record DesktopState := {
  windows : gmap string WindowState.t;
  activeId : option string;
  nextZIndex : Z;
  activeDesktopId : string
}.

(* --------------------------------------------------------------------- *)
(* Window management handlers                                              *)
(* --------------------------------------------------------------------- *)

(** The updater passed to `setWindows` by `openWindow`; `nextZ` and
    `desktop` are the `nextZIndex` and `activeDesktopId` its closure
    holds. *)
Definition openWindowUpdater (featureId : string) (nextZ : Z) (desktop : string)
    (prev : gmap string WindowState.t) : gmap string WindowState.t :=
  match plainGet prev featureId with
  | Some w =>
      <[featureId :=
          WindowState.withDesktopId desktop
            (WindowState.withZIndex (nextZ + 1)
               (WindowState.withIsMinimized false w))]> prev
  | None =>
      <[featureId :=
          WindowState.mk
            (Some featureId)
            (Some {| x := 50 + Z.of_nat (size prev) * 20;
                     y := 50 + Z.of_nat (size prev) * 20 |})
            (Some {| width := 800; height := 600 |})
            (Some (nextZ + 1))
            (Some false)
            (Some false)
            (Some false)
            (Some false)
            (Some desktop)
            (Some 1)]> prev
  end.

(** `openWindow(featureId)` *)
Definition openWindow (featureId : string) (st : DesktopState) : DesktopState :=
  {| windows := openWindowUpdater featureId (nextZIndex st) (activeDesktopId st)
                  (windows st);
     activeId := Some featureId;
     nextZIndex := nextZIndex st + 1;
     activeDesktopId := activeDesktopId st |}.

(** The updater of `closeWindow(id)`: copy, then `delete copy[id]`. *)
Definition closeWindowUpdater (id : string) (prev : gmap string WindowState.t)
    : gmap string WindowState.t :=
  delete id prev.

Definition closeWindow (id : string) (st : DesktopState) : DesktopState :=
  {| windows := closeWindowUpdater id (windows st);
     activeId := activeId st;
     nextZIndex := nextZIndex st;
     activeDesktopId := activeDesktopId st |}.

(** The updater of `updateWindowState(id, updates)`:
    `prev => ({ ...prev, [id]: { ...prev[id], ...updates } })`. *)
Definition updateWindowStateUpdater (id : string) (updates : WindowState.t)
    (prev : gmap string WindowState.t) : gmap string WindowState.t :=
  <[id := WindowState.spread (WindowState.ofLookup (prev !! id)) updates]> prev.

Definition updateWindowState (id : string) (updates : WindowState.t)
    (st : DesktopState) : DesktopState :=
  {| windows := updateWindowStateUpdater id updates (windows st);
     activeId := activeId st;
     nextZIndex := nextZIndex st;
     activeDesktopId := activeDesktopId st |}.

(** The updater of `onMinimize`:
    `p => ({...p, [win.id]: {...p[win.id], isMinimized: true}})`. *)
Definition onMinimizeUpdater (id : string) (p : gmap string WindowState.t)
    : gmap string WindowState.t :=
  <[id := WindowState.withIsMinimized true (WindowState.ofLookup (p !! id))]> p.

Definition onMinimize (id : string) (st : DesktopState) : DesktopState :=
  {| windows := onMinimizeUpdater id (windows st);
     activeId := activeId st;
     nextZIndex := nextZIndex st;
     activeDesktopId := activeDesktopId st |}.

(** The updater of `onMaximize`.  `p[win.id].isMaximized` is a property
    read on `undefined` when `p[win.id]` is, a TypeError: None. *)
Definition onMaximizeUpdater (inner : Viewport) (id : string)
    (p : gmap string WindowState.t) : option (gmap string WindowState.t) :=
  match plainGet p id with
  | None => None
  | Some w =>
      let entering := negb (truthy (WindowState.isMaximized w)) in
      Some (<[id :=
               WindowState.withPosition
                 (if entering then {| x := 0; y := 0 |}
                  else {| x := 50; y := 50 |})
                 (WindowState.withSize
                    (if entering
                     then {| width := innerWidth inner;
                             height := innerHeight inner - 60 |}
                     else {| width := 800; height := 600 |})
                    (WindowState.withIsMaximized entering w))]> p)
  end.

Definition onMaximize (inner : Viewport) (id : string) (st : DesktopState)
    : option DesktopState :=
  match onMaximizeUpdater inner id (windows st) with
  | None => None
  | Some ws =>
      Some {| windows := ws;
              activeId := activeId st;
              nextZIndex := nextZIndex st;
              activeDesktopId := activeDesktopId st |}
  end.

(** `onFocus`: `setActiveId(win.id)`, then
    `p => ({...p, [win.id]: {...p[win.id], zIndex: nextZIndex + 1}})`,
    then `setNextZIndex(z => z + 1)`. *)
Definition onFocusUpdater (id : string) (nextZ : Z)
    (p : gmap string WindowState.t) : gmap string WindowState.t :=
  <[id := WindowState.withZIndex (nextZ + 1) (WindowState.ofLookup (p !! id))]> p.

Definition onFocus (id : string) (st : DesktopState) : DesktopState :=
  {| windows := onFocusUpdater id (nextZIndex st) (windows st);
     activeId := Some id;
     nextZIndex := nextZIndex st + 1;
     activeDesktopId := activeDesktopId st |}.

(** The predicate of the render filter:
    `w => !w.isMinimized && w.desktopId === activeDesktopId`. *)
Definition isVisible (desktop : string) (w : WindowState.t) : bool :=
  negb (truthy (WindowState.isMinimized w))
  && bool_decide (WindowState.desktopId w = Some desktop).

(** `Object.values(windows)` *)
Definition values (ws : gmap string WindowState.t) : list WindowState.t :=
  (map_to_list ws).*2.

(** The windows DesktopView renders:
    `Object.values(windows).filter(w => !w.isMinimized && w.desktopId === activeDesktopId)`. *)
Definition getVisibleWindows (ws : gmap string WindowState.t) (desktop : string)
    : list WindowState.t :=
  List.filter (isVisible desktop) (values ws).

(** The taskbar's `minimizedWindows`:
    `Object.values(windows).filter(w => w.isMinimized)`. *)
Definition getMinimizedWindows (ws : gmap string WindowState.t)
    : list WindowState.t :=
  List.filter (fun w => truthy (WindowState.isMinimized w)) (values ws).

(* --------------------------------------------------------------------- *)
(* Virtual desktops                                                        *)
(* --------------------------------------------------------------------- *)

Module VirtualDesktop.

(** `interface VirtualDesktop` *)
Record t := mk {
  id : string;
  name : string;
  wallpaperUrl : string;
  widgets : list string
}.

End VirtualDesktop.

Module VirtualDesktopService.

(** The fields of `class VirtualDesktopService` other than the listener
    set. *)
Record t := mk {
  desktops : list VirtualDesktop.t;
  activeDesktopId : string
}.

(** The private constructor: two desktops, the first one active. *)
Definition initialDesktops : list VirtualDesktop.t :=
  [ VirtualDesktop.mk "desktop-1" "Main Workspace"
      "https://picsum.photos/1920/1080?random=1" [];
    VirtualDesktop.mk "desktop-2" "Financial Analysis"
      "https://picsum.photos/1920/1080?random=2" [] ].

Definition create : t := mk initialDesktops "desktop-1".

Definition getActiveDesktopId (svc : t) : string := activeDesktopId svc.

(** `this.desktops.some(d => d.id === id)` *)
Definition knows (svc : t) (id : string) : bool :=
  existsb (fun d => bool_decide (VirtualDesktop.id d = id)) (desktops svc).

(** `setActiveDesktop(id)`.  The second component tells whether
    `notifyListeners()` ran. *)
Definition setActiveDesktop (id : string) (svc : t) : t * bool :=
  if knows svc id && negb (bool_decide (activeDesktopId svc = id))
  then (mk (desktops svc) id, true)
  else (svc, false).

End VirtualDesktopService.

(** The desktop service together with the DesktopView that subscribed to
    it. *)
Record System := {
  virtualDesktops : VirtualDesktopService.t;
  view : DesktopState
}.

(** The listener DesktopView subscribes:
    `() => setActiveDesktopId(virtualDesktopService.getActiveDesktopId())`. *)
Definition onDesktopChange (svc : VirtualDesktopService.t) (st : DesktopState)
    : DesktopState :=
  {| windows := windows st;
     activeId := activeId st;
     nextZIndex := nextZIndex st;
     activeDesktopId := VirtualDesktopService.getActiveDesktopId svc |}.

(** The taskbar's `onSwitchDesktop`:
    `id => virtualDesktopService.setActiveDesktop(id)`, followed by the
    listener when the service notifies. *)
Definition switchDesktop (id : string) (sys : System) : System :=
  let '(svc, notified) :=
    VirtualDesktopService.setActiveDesktop id (virtualDesktops sys) in
  {| virtualDesktops := svc;
     view := if notified then onDesktopChange svc (view sys) else view sys |}.

(** First mount: no window, `nextZIndex = Z_INDEX_BASE`, and the active
    desktop read from the service. *)
Definition initialView (svc : VirtualDesktopService.t) : DesktopState :=
  {| windows := ∅;
     activeId := None;
     nextZIndex := Z_INDEX_BASE;
     activeDesktopId := VirtualDesktopService.getActiveDesktopId svc |}.

Definition initialSystem : System :=
  {| virtualDesktops := VirtualDesktopService.create;
     view := initialView VirtualDesktopService.create |}.

(* --------------------------------------------------------------------- *)
(* UI events                                                               *)
(* --------------------------------------------------------------------- *)

(** What the user can do.  `Maximize` carries the viewport the browser has
    when the button is clicked. *)
Inductive Event :=
| OpenWindow (featureId : string)
| CloseWindow (id : string)
| Minimize (id : string)
| Maximize (id : string) (inner : Viewport)
| Focus (id : string)
| SwitchDesktop (id : string).

Definition withView (sys : System) (st : DesktopState) : System :=
  {| virtualDesktops := virtualDesktops sys; view := st |}.

(** One event.  `onClose`, `onMinimize`, `onMaximize` and `onFocus` are
    props of the `<Window>` rendered for a record of the store, closed
    over its `win.id`: they can only fire for an id the store holds, and
    None says that no such handler exists.  `openWindow` is reachable for
    any id (dock, taskbar, context menu). *)
Definition dispatch (ev : Event) (sys : System) : option System :=
  let st := view sys in
  match ev with
  | OpenWindow featureId => Some (withView sys (openWindow featureId st))
  | CloseWindow id =>
      if decide (is_Some (windows st !! id))
      then Some (withView sys (closeWindow id st)) else None
  | Minimize id =>
      if decide (is_Some (windows st !! id))
      then Some (withView sys (onMinimize id st)) else None
  | Maximize id inner =>
      if decide (is_Some (windows st !! id))
      then withView sys <$> onMaximize inner id st else None
  | Focus id =>
      if decide (is_Some (windows st !! id))
      then Some (withView sys (onFocus id st)) else None
  | SwitchDesktop id => Some (switchDesktop id sys)
  end.

(** The window whose chrome an event comes from, if any. *)
Definition target (ev : Event) : option string :=
  match ev with
  | OpenWindow _ | SwitchDesktop _ => None
  | CloseWindow id | Minimize id | Maximize id _ | Focus id => Some id
  end.

(** A sequence of events, each handled in the state the previous one
    left. *)
Fixpoint run (evs : list Event) (sys : System) : option System :=
  match evs with
  | [] => Some sys
  | ev :: rest =>
      match dispatch ev sys with
      | Some sys' => run rest sys'
      | None => None
      end
  end.

(** The states the UI can be in. *)
Definition reachable (sys : System) : Prop :=
  exists evs, run evs initialSystem = Some sys.

(** The window that the last `OpenWindow` or `Focus` of a trace names, or
    `start` when there is none. *)
Fixpoint lastActivated (evs : list Event) (start : option string)
    : option string :=
  match evs with
  | [] => start
  | OpenWindow f :: rest => lastActivated rest (Some f)
  | Focus i :: rest => lastActivated rest (Some i)
  | _ :: rest => lastActivated rest start
  end.

(** The default positions given to the windows that a trace creates, in
    the order of creation: one entry for every `OpenWindow` of an id the
    store does not hold at that moment. *)
Fixpoint createdPositions (evs : list Event) (sys : System)
    : list (option Point) :=
  match evs with
  | [] => []
  | ev :: rest =>
      match dispatch ev sys with
      | None => []
      | Some sys' =>
          match ev with
          | OpenWindow f =>
              match windows (view sys) !! f with
              | None =>
                  (WindowState.position
                     (WindowState.ofLookup (windows (view sys') !! f)))
                  :: createdPositions rest sys'
              | Some _ => createdPositions rest sys'
              end
          | _ => createdPositions rest sys'
          end
      end
  end.

(* --------------------------------------------------------------------- *)
(* Properties of the store that the handlers maintain                      *)
(* --------------------------------------------------------------------- *)

(** Every record sits under its own `id`. *)
Definition keyed (ws : gmap string WindowState.t) : Prop :=
  forall k w, ws !! k = Some w -> WindowState.id w = Some k.

(** Every record has a z-index, and none exceeds the counter. *)
Definition zBounded (ws : gmap string WindowState.t) (nextZ : Z) : Prop :=
  forall k w, ws !! k = Some w ->
    exists z, WindowState.zIndex w = Some z /\ z <= nextZ.

(** Two different windows never share a z-index. *)
Definition zDistinct (ws : gmap string WindowState.t) : Prop :=
  forall i j wi wj, ws !! i = Some wi -> ws !! j = Some wj -> i <> j ->
    exists zi zj,
      WindowState.zIndex wi = Some zi /\ WindowState.zIndex wj = Some zj /\
      zi <> zj.

(** The active window, while it is in the store, is on top. *)
Definition activeOnTop (st : DesktopState) : Prop :=
  forall a wa, activeId st = Some a -> windows st !! a = Some wa ->
    exists za, WindowState.zIndex wa = Some za /\
      forall j wj, windows st !! j = Some wj ->
        exists zj, WindowState.zIndex wj = Some zj /\ zj <= za.

(** The active window carries the counter's value as its z-index. *)
Definition activeAtCounter (st : DesktopState) : Prop :=
  forall a wa, activeId st = Some a -> windows st !! a = Some wa ->
    WindowState.zIndex wa = Some (nextZIndex st).

(** What a malformed resize would have to satisfy under a clamping
    policy: the size stored for `id` after the update has no negative
    component. *)
Definition storedSizeNonNegative (id : string) (st : DesktopState) : Prop :=
  exists w s, windows st !! id = Some w /\ WindowState.size w = Some s /\
    0 <= width s /\ 0 <= height s.

(** What every handler keeps true of the view state. *)
Record Inv (st : DesktopState) : Prop := {
  inv_keyed : keyed (windows st);
  inv_bounded : zBounded (windows st) (nextZIndex st);
  inv_distinct : zDistinct (windows st);
  inv_active : activeAtCounter st
}.

(** The cascade read literally: the k-th window a trace creates (counting
    from 0) gets the default position (50 + 20k, 50 + 20k), whatever
    happens in between. *)
Definition cascadesFromPrevious (evs : list Event) : Prop :=
  forall (k : nat) (p : option Point),
    createdPositions evs initialSystem !! k = Some p ->
    p = Some {| x := 50 + 20 * Z.of_nat k; y := 50 + 20 * Z.of_nat k |}.

(* --------------------------------------------------------------------- *)
(* The taskbar's view of the store                                         *)
(* --------------------------------------------------------------------- *)

(** The taskbar's `openWindows`:
    `Object.values(windows).filter(w => w.desktopId === activeDesktopId)`,
    the buttons that call `onRestore = openWindow`. *)
Definition getOpenWindows (ws : gmap string WindowState.t) (desktop : string)
    : list WindowState.t :=
  List.filter (fun w => bool_decide (WindowState.desktopId w = Some desktop))
    (values ws).

(* --------------------------------------------------------------------- *)
(* The drag controller of one window (src/unnamed/part_000, `Window`)      *)
(* --------------------------------------------------------------------- *)

(** Where a mouse-down on a window lands: inside `.window-content`, inside
    `.window-header` (title and buttons), or on neither (the resize
    handle). *)
Inductive HitRegion := InContent | InHeader | Elsewhere.

Module Window.

(** The local state of a `<Window>`: the `isDragging` hook and the
    `dragOffset` ref. *)
Record t := mk {
  isDragging : bool;
  dragOffset : Point
}.

Definition initial : t := mk false {| x := 0; y := 0 |}.

End Window.

(** `{ position: {...}, isDragging: true }`, the patch of a mouse move. *)
Definition movePatch (p : Point) : WindowState.t :=
  WindowState.mk None (Some p) None None None None None (Some true) None None.

(** `{ isDragging: false }`, the patch of the mouse-up. *)
Definition releasePatch : WindowState.t :=
  WindowState.mk None None None None None None None (Some false) None None.

(** `handleMouseDown` of the window rendered for the record under `id`
    (None: the store holds no such record, so no window is rendered).
    `onFocus()` runs first; a hit in the content stops there; a hit in the
    header calls `setIsDragging(true)` and then records the pointer offset
    from `state.position`, the record as it was rendered.  When that
    record lacks `position` the read throws after `setIsDragging(true)`,
    and the offset keeps its old value. *)
Definition handleMouseDown (id : string) (region : HitRegion) (client : Point)
    (st : DesktopState) (win : Window.t) : option (DesktopState * Window.t) :=
  match windows st !! id with
  | None => None
  | Some w =>
      let st' := onFocus id st in
      match region with
      | InContent => Some (st', win)
      | Elsewhere => Some (st', win)
      | InHeader =>
          match WindowState.position w with
          | Some p =>
              Some (st', Window.mk true {| x := x client - x p;
                                           y := y client - y p |})
          | None => Some (st', Window.mk true (Window.dragOffset win))
          end
      end
  end.

(** `handleMouseMove`: while dragging,
    `onUpdate(feature.id, { position: client - dragOffset, isDragging: true })`. *)
Definition handleMouseMove (id : string) (client : Point)
    (st : DesktopState) (win : Window.t) : DesktopState :=
  if Window.isDragging win
  then updateWindowState id
         (movePatch {| x := x client - x (Window.dragOffset win);
                       y := y client - y (Window.dragOffset win) |}) st
  else st.

(** `handleMouseUp`: while dragging, `setIsDragging(false)` and
    `onUpdate(feature.id, { isDragging: false })`. *)
Definition handleMouseUp (id : string) (st : DesktopState) (win : Window.t)
    : DesktopState * Window.t :=
  if Window.isDragging win
  then (updateWindowState id releasePatch st,
        Window.mk false (Window.dragOffset win))
  else (st, win).

(** The pointer events one window receives. *)
Inductive MouseEvent :=
| MouseDown (region : HitRegion) (client : Point)
| MouseMove (client : Point)
| MouseUp.

Definition handleMouse (id : string) (ev : MouseEvent)
    (st : DesktopState) (win : Window.t) : option (DesktopState * Window.t) :=
  match ev with
  | MouseDown region client => handleMouseDown id region client st win
  | MouseMove client => Some (handleMouseMove id client st win, win)
  | MouseUp => Some (handleMouseUp id st win)
  end.

Fixpoint handleMice (id : string) (evs : list MouseEvent)
    (st : DesktopState) (win : Window.t) : option (DesktopState * Window.t) :=
  match evs with
  | [] => Some (st, win)
  | ev :: rest =>
      match handleMouse id ev st win with
      | Some (st', win') => handleMice id rest st' win'
      | None => None
      end
  end.

(** The pointer position of the last move of a gesture, if it has one. *)
Definition lastMove (moves : list Point) : option Point := last moves.

(* --------------------------------------------------------------------- *)
(* Authentication and the screen lock                                      *)
(* --------------------------------------------------------------------- *)

Module UserProfile.

(** `interface UserProfile`; `lastLogin` is a `Date`, kept as its time
    value, and the values of `settings` are opaque. *)
Record t := mk {
  userId : string;
  username : string;
  themeId : string;
  settings : gmap string string;
  lastLogin : Z;
  permissions : list string
}.

End UserProfile.

Module MockAuthenticationService.

(** `currentUser`; the listener set is kept apart. *)
Record t := mk { currentUser : option UserProfile.t }.

Definition create : t := mk None.

(** `credentials.username || 'demoUser'`: an absent or empty username is
    falsy. *)
Definition usernameOf (username : option string) : string :=
  match username with
  | Some u => if bool_decide (u = "") then "demoUser" else u
  | None => "demoUser"
  end.

(** `login(credentials)` at time `now`: the new service, the profile it
    returns, and the value every listener is called with. *)
Definition login (username : option string) (now : Z) (svc : t)
    : t * UserProfile.t * option UserProfile.t :=
  let user :=
    UserProfile.mk "user123" (usernameOf username) "atlas-dark" ∅ now
      ["feature:read"; "feature:write"] in
  (mk (Some user), user, Some user).

(** `logout()`: the new service and the value every listener is called
    with. *)
Definition logout (svc : t) : t * option UserProfile.t :=
  (mk None, None).

Definition getCurrentUser (svc : t) : option UserProfile.t := currentUser svc.

End MockAuthenticationService.

(** DesktopView together with the hooks of its lock: `isLocked` and
    `currentUser`. *)
Record Session := {
  desktop : DesktopState;
  isLocked : bool;
  currentUser : option UserProfile.t
}.

(** The listener given to `subscribeAuthChange`:
    `u => { setCurrentUser(u); if (!u) { setIsLocked(true); setWindows({}); } }`. *)
Definition onAuthChange (u : option UserProfile.t) (s : Session) : Session :=
  match u with
  | Some _ =>
      {| desktop := desktop s; isLocked := isLocked s; currentUser := u |}
  | None =>
      {| desktop := {| windows := ∅;
                       activeId := activeId (desktop s);
                       nextZIndex := nextZIndex (desktop s);
                       activeDesktopId := activeDesktopId (desktop s) |};
         isLocked := true;
         currentUser := None |}
  end.

(** `onUnlock` of the screen locker: `() => setIsLocked(false)`. *)
Definition onUnlock (s : Session) : Session :=
  {| desktop := desktop s; isLocked := false; currentUser := currentUser s |}.

(** First mount of DesktopView against an authentication service: the
    initial hooks, then the listener called once with the current user by
    `subscribeAuthChange`. *)
Definition mountSession (svc : VirtualDesktopService.t)
    (auth : MockAuthenticationService.t) : Session :=
  onAuthChange (MockAuthenticationService.getCurrentUser auth)
    {| desktop := initialView svc; isLocked := false; currentUser := None |}.

(** The events that hand out a z-index: `openWindow` and `onFocus`. *)
Definition isActivation (ev : Event) : bool :=
  match ev with
  | OpenWindow _ | Focus _ => true
  | _ => false
  end.

(** How many z-indices a trace hands out. *)
Definition activations (evs : list Event) : nat :=
  length (List.filter isActivation evs).

(** Every z-index of the store lies in (`Z_INDEX_BASE`, `nextZ`]. *)
Definition zInRange (ws : gmap string WindowState.t) (nextZ : Z) : Prop :=
  forall k w, ws !! k = Some w ->
    exists z, WindowState.zIndex w = Some z /\ Z_INDEX_BASE < z <= nextZ.

(** The desktop registry is the one of the constructor, the view mirrors
    the service's active desktop, that desktop is in the registry, and
    every window is pinned to a desktop of the registry. *)
Record DesktopsInv (sys : System) : Prop := {
  di_registry :
    VirtualDesktopService.desktops (virtualDesktops sys)
    = VirtualDesktopService.initialDesktops;
  di_mirror :
    activeDesktopId (view sys)
    = VirtualDesktopService.activeDesktopId (virtualDesktops sys);
  di_active :
    VirtualDesktopService.knows (virtualDesktops sys)
      (VirtualDesktopService.activeDesktopId (virtualDesktops sys)) = true;
  di_pinned :
    forall k w, windows (view sys) !! k = Some w ->
      exists d, WindowState.desktopId w = Some d /\
        VirtualDesktopService.knows (virtualDesktops sys) d = true
}.

(** The record a finished drag leaves behind: `isDragging` false, and the
    position replaced when the pointer moved. *)
Definition dropped (pos : option Point) (w : WindowState.t) : WindowState.t :=
  WindowState.mk (WindowState.id w)
    (WindowState.over pos (WindowState.position w))
    (WindowState.size w) (WindowState.zIndex w) (WindowState.isMinimized w)
    (WindowState.isMaximized w) (WindowState.isResizing w) (Some false)
    (WindowState.desktopId w) (WindowState.opacity w).

(** The window position for a pointer at `client` grabbed with `offset`. *)
Definition pointerToPosition (offset client : Point) : Point :=
  {| x := x client - x offset; y := y client - y offset |}.

(** A run of pointer events without a mouse-down. *)
Definition noMouseDown (evs : list MouseEvent) : bool :=
  forallb (fun ev => match ev with MouseDown _ _ => false | _ => true end) evs.

(* --------------------------------------------------------------------- *)
(* Configuration and notifications                                         *)
(* --------------------------------------------------------------------- *)

(** `securityLevel: 'low' | 'medium' | 'high' | 'paranoid'` *)
Inductive SecurityLevel :=
| SecurityLow | SecurityMedium | SecurityHigh | SecurityParanoid.

Module SystemConfig.

(** `interface SystemConfig` *)
Record t := mk {
  defaultThemeId : string;
  enableTelemetry : bool;
  enableAIAssistant : bool;
  maxNotifications : Z;
  idleTimeoutMinutes : Z;
  multiMonitorEnabled : bool;
  securityLevel : SecurityLevel;
  auditLoggingEnabled : bool;
  dataEncryptionEnabled : bool
}.

(** The configuration the constructor of `SystemConfigService` sets. *)
Definition initial : t :=
  mk "atlas-dark" true true 50 15 true SecurityMedium true true.

End SystemConfig.

(** `type: 'info' | 'warning' | 'error' | 'success' | 'system'` *)
Inductive NotificationType :=
| NotifyInfo | NotifyWarning | NotifyError | NotifySuccess | NotifySystem.

(** `action?: { label: string; callback: () => void }`; the closure is
    opaque and stands as a token. *)
Record NotificationAction := {
  label : string;
  callback : positive
}.

Module NotificationInput.

(** `Omit<Notification, 'id' | 'timestamp' | 'isRead'>` *)
Record t := mk {
  title : string;
  message : string;
  type : NotificationType;
  action : option NotificationAction;
  duration : option Z;
  icon : option string
}.

End NotificationInput.

Module Notification.

(** `interface Notification`; `timestamp` is a `Date`, kept as its time
    value. *)
Record t := mk {
  id : string;
  title : string;
  message : string;
  type : NotificationType;
  timestamp : Z;
  action : option NotificationAction;
  isRead : bool;
  duration : option Z;
  icon : option string
}.

(** `{ ...n, isRead: true }` *)
Definition read (n : t) : t :=
  mk (id n) (title n) (message n) (type n) (timestamp n) (action n) true
     (duration n) (icon n).

End Notification.

(** `l.slice(0, stop)` for an integral `stop`: a negative `stop` counts
    from the end of the list. *)
Definition slice0 {A : Type} (l : list A) (stop : Z) : list A :=
  let len := Z.of_nat (length l) in
  take (Z.to_nat (if stop <? 0 then Z.max (len + stop) 0 else Z.min stop len)) l.

Module NotificationService.

(** The fields of `class NotificationService` other than the listener
    set. *)
Record t := mk {
  notifications : list Notification.t;
  config : SystemConfig.t
}.

Definition create (cfg : SystemConfig.t) : t := mk [] cfg.

(** `{ ...notification, id, timestamp: new Date(), isRead: false }` *)
Definition build (input : NotificationInput.t) (id : string) (now : Z)
    : Notification.t :=
  Notification.mk id (NotificationInput.title input)
    (NotificationInput.message input) (NotificationInput.type input) now
    (NotificationInput.action input) false (NotificationInput.duration input)
    (NotificationInput.icon input).

(** The delay of the timer `addNotification` sets, if it sets one:
    `newNotification.duration && newNotification.duration > 0`. *)
Definition timerOf (n : Notification.t) : option Z :=
  match Notification.duration n with
  | Some d => if 0 <? d then Some d else None
  | None => None
  end.

(** `addNotification(notification)`, with `id` the value of
    `generateUniqueId()` and `now` the time: the new service, the id it
    returns, and the delay after which `dismissNotification(id)` is
    scheduled. *)
Definition addNotification (input : NotificationInput.t) (id : string)
    (now : Z) (svc : t) : t * string * option Z :=
  let n := build input id now in
  (mk (slice0 (n :: notifications svc)
         (SystemConfig.maxNotifications (config svc)))
      (config svc),
   id, timerOf n).

Definition getNotifications (svc : t) : list Notification.t :=
  notifications svc.

(** `this.notifications.filter(n => n.id !== id)` *)
Definition dismissNotification (id : string) (svc : t) : t :=
  mk (List.filter (fun n => negb (bool_decide (Notification.id n = id)))
        (notifications svc))
     (config svc).

(** `this.notifications.map(n => n.id === id ? { ...n, isRead: true } : n)` *)
Definition markAsRead (id : string) (svc : t) : t :=
  mk (List.map (fun n => if bool_decide (Notification.id n = id)
                         then Notification.read n else n)
        (notifications svc))
     (config svc).

(** The calls a client can make. *)
Inductive Call :=
| Add (input : NotificationInput.t) (id : string) (now : Z)
| Dismiss (id : string)
| MarkAsRead (id : string).

Definition call (c : Call) (svc : t) : t :=
  match c with
  | Add input id now => (addNotification input id now svc).1.1
  | Dismiss id => dismissNotification id svc
  | MarkAsRead id => markAsRead id svc
  end.

Definition calls (cs : list Call) (svc : t) : t :=
  foldl (fun s c => call c s) svc cs.

End NotificationService.

(* --------------------------------------------------------------------- *)
(* Themes                                                                  *)
(* --------------------------------------------------------------------- *)

Module DesktopTheme.

(** `interface DesktopTheme`; the number `taskbarOpacity` is kept as the
    rational its literal denotes. *)
Record t := mk {
  id : string;
  name : string;
  primaryColor : string;
  secondaryColor : string;
  accentColor : string;
  backgroundColor : string;
  fontFamily : string;
  iconSet : string;
  cursorSet : string;
  windowBorderRadius : string;
  taskbarOpacity : QArith_base.Q
}.

End DesktopTheme.

(** What `applyThemeToDOM` writes of the document: four custom properties
    of the root element and the class of the body. *)
Record ThemedDocument := {
  primaryColorVar : string;
  secondaryColorVar : string;
  accentColorVar : string;
  backgroundColorVar : string;
  bodyClassName : string
}.

Module ThemeService.

(** What `this.availableThemes[themeId]` can yield and `currentTheme` can
    hold: a theme of the table, or, for a name every object inherits, the
    inherited value under that name, which is truthy and has none of the
    properties of a theme. *)
Inductive Current :=
| OwnTheme (theme : DesktopTheme.t)
| InheritedValue (name : string).

(** The fields of `class ThemeService` other than the listener set,
    together with the part of the document the service writes. *)
Record t := mk {
  currentTheme : Current;
  availableThemes : gmap string DesktopTheme.t;
  document : ThemedDocument
}.

Definition atlasDark : DesktopTheme.t :=
  DesktopTheme.mk "atlas-dark" "Atlas Dark" "#2C3E50" "#34495E" "#3498DB"
    "#1E2B38" "Roboto, sans-serif" "material-dark" "default" "8px"
    (QArith_base.Qmake 95 100).

Definition citibankCorporate : DesktopTheme.t :=
  DesktopTheme.mk "citibank-corporate" "Citibank Corporate" "#003151"
    "#004772" "#F58220" "#F8F9FA"
    (String.append (String (Ascii.ascii_of_nat 34) "Citibank Sans")
       (String (Ascii.ascii_of_nat 34) ", Arial, sans-serif"))
    "citibank-vector" "citibank" "6px" (QArith_base.Qmake 98 100).

(** `applyThemeToDOM(theme)`.  On an inherited value every property read
    is `undefined`, which `setProperty` and the template string turn into
    the text "undefined". *)
Definition applyThemeToDOM (theme : Current) : ThemedDocument :=
  match theme with
  | OwnTheme theme =>
      {| primaryColorVar := DesktopTheme.primaryColor theme;
         secondaryColorVar := DesktopTheme.secondaryColor theme;
         accentColorVar := DesktopTheme.accentColor theme;
         backgroundColorVar := DesktopTheme.backgroundColor theme;
         bodyClassName := String.append "atlas-theme-" (DesktopTheme.id theme) |}
  | InheritedValue _ =>
      {| primaryColorVar := "undefined";
         secondaryColorVar := "undefined";
         accentColorVar := "undefined";
         backgroundColorVar := "undefined";
         bodyClassName := String.append "atlas-theme-" "undefined" |}
  end.

(** The constructor: two themes, "atlas-dark" current and applied. *)
Definition create : t :=
  mk (OwnTheme atlasDark)
     (<["citibank-corporate" := citibankCorporate]>
        (<["atlas-dark" := atlasDark]> ∅))
     (applyThemeToDOM (OwnTheme atlasDark)).

Definition getCurrentTheme (svc : t) : Current := currentTheme svc.

(** `this.availableThemes[themeId]` on the plain object of themes. *)
Definition themeAt (themes : gmap string DesktopTheme.t) (themeId : string)
    : option Current :=
  match themes !! themeId with
  | Some theme => Some (OwnTheme theme)
  | None =>
      if inheritsProperty themeId then Some (InheritedValue themeId) else None
  end.

(** `applyTheme(themeId)`: the new service and, when the lookup is truthy,
    the value every listener is called with. *)
Definition applyTheme (themeId : string) (svc : t) : t * option Current :=
  match themeAt (availableThemes svc) themeId with
  | Some newTheme =>
      (mk newTheme (availableThemes svc) (applyThemeToDOM newTheme),
       Some newTheme)
  | None => (svc, None)
  end.

(** A sequence of `applyTheme` calls. *)
Definition applyThemes (ids : list string) (svc : t) : t :=
  foldl (fun s themeId => (applyTheme themeId s).1) svc ids.

(** The last id of `ids` that names a theme of `themes`, if any. *)
Definition lastKnown (themes : gmap string DesktopTheme.t) (ids : list string)
    : option DesktopTheme.t :=
  foldl (fun acc themeId =>
           match themes !! themeId with
           | Some theme => Some theme
           | None => acc
           end) None ids.

End ThemeService.

(* --------------------------------------------------------------------- *)
(* ActionManager (src/components/ActionManager.tsx)                        *)
(* --------------------------------------------------------------------- *)

(** What `executeAction` prints: `console.log` before running a callback,
    `console.warn` for an id nobody registered. *)
Inductive ConsoleLine (Payload : Type) :=
| Executing (id : string) (payload : Payload)
| ActionNotFound (id : string).

Arguments Executing {Payload} id payload.
Arguments ActionNotFound {Payload} id.

Module ActionManager.

Section Actions.

Context {Payload World : Type}.

(** `type ActionCallback = (payload: any) => void`: a callback acts on
    the rest of the program, the `World`. *)
Definition ActionCallback : Type := Payload -> World -> World.

(** `registerAction(id, callback)`: `this.actions.set(id, callback)`. *)
Definition registerAction (id : string) (callback : ActionCallback)
    (actions : gmap string ActionCallback) : gmap string ActionCallback :=
  <[id := callback]> actions.

(** `executeAction(id, payload)`: the world after the call and the lines
    added to the console. *)
Definition executeAction (id : string) (payload : Payload)
    (actions : gmap string ActionCallback) (world : World)
    : World * list (ConsoleLine Payload) :=
  match actions !! id with
  | Some action => (action payload world, [Executing id payload])
  | None => (world, [ActionNotFound id])
  end.

(** The registry `ServiceLocator.initialize()` leaves: two actions, given
    here by their callbacks. *)
Definition initialActions (showNotification aiQuery : ActionCallback)
    : gmap string ActionCallback :=
  registerAction "ai_query" aiQuery
    (registerAction "show_notification" showNotification ∅).

End Actions.

End ActionManager.

(* --------------------------------------------------------------------- *)
(* generateUniqueId                                                        *)
(* --------------------------------------------------------------------- *)

(** The digit of `toString(16)` for a value below 16. *)
Definition hexDigit (n : N) : ascii :=
  match n with
  | 0%N => "0" | 1%N => "1" | 2%N => "2" | 3%N => "3" | 4%N => "4"
  | 5%N => "5" | 6%N => "6" | 7%N => "7" | 8%N => "8" | 9%N => "9"
  | 10%N => "a" | 11%N => "b" | 12%N => "c" | 13%N => "d" | 14%N => "e"
  | _ => "f"
  end%char.

(** `b.toString(16)` for an element of a `Uint8Array`: one or two digits,
    no leading zero. *)
Definition toString16 (b : byte) : string :=
  let n := Byte.to_N b in
  if (n <? 16)%N then String (hexDigit n) EmptyString
  else String (hexDigit (n / 16)) (String (hexDigit (n mod 16)) EmptyString).

(** `s.padStart(targetLength, pad)` for a one-character `pad`. *)
Definition padStart (targetLength : nat) (pad : ascii) (s : string) : string :=
  Nat.iter (targetLength - String.length s) (String pad) s.

(** `generateUniqueId()`, with `randomBytes` the sixteen bytes that
    `crypto.getRandomValues` wrote:
    `Array.from(randomBytes).map(b => b.toString(16).padStart(2, '0')).join('')`. *)
Definition generateUniqueId (randomBytes : list byte) : string :=
  String.concat "" (List.map (fun b => padStart 2 "0" (toString16 b)) randomBytes).

(** The value of a hexadecimal digit. *)
Definition hexValue (c : ascii) : option N :=
  let n := N_of_ascii c in
  if ((48 <=? n) && (n <=? 57))%N then Some (n - 48)%N
  else if ((97 <=? n) && (n <=? 102))%N then Some (n - 87)%N
  else None.

(** Reading an id back, two digits per byte. *)
Fixpoint parseUniqueId (s : string) : option (list byte) :=
  match s with
  | EmptyString => Some []
  | String hi (String lo rest) =>
      match hexValue hi, hexValue lo, parseUniqueId rest with
      | Some h, Some l, Some bytes =>
          match Byte.of_N (16 * h + l) with
          | Some b => Some (b :: bytes)
          | None => None
          end
      | _, _, _ => None
      end
  | String _ EmptyString => None
  end.

(* --------------------------------------------------------------------- *)
(* Features and the windows that are rendered                              *)
(* --------------------------------------------------------------------- *)

Module Feature.

(** `interface Feature`, without the optional React component, which no
    entry of `ALL_FEATURES` sets. *)
Record t := mk {
  id : string;
  name : string;
  description : string;
  icon : string
}.

End Feature.

(** `ALL_FEATURES` *)
Definition ALL_FEATURES : list Feature.t :=
  [ Feature.mk "calculator" "Calculator" "Advanced Financial Calculator" "🧮";
    Feature.mk "document-editor" "Doc Editor" "Secure Document Processing" "📝";
    Feature.mk "financial-dashboard" "Financial Dash" "Real-time Market Data" "📈";
    Feature.mk "settings" "Settings" "System Configuration" "⚙️";
    Feature.mk "admin-console" "Admin Console" "Enterprise Management" "🛡️";
    Feature.mk "about-atlas" "About Atlas" "System Information" "ℹ️" ].

(** `new Map(ALL_FEATURES.map(f => [f.id, f]))` *)
Definition featuresMap : gmap string Feature.t :=
  foldl (fun m f => <[Feature.id f := f]> m) ∅ ALL_FEATURES.

(** The body of the render loop: `featuresMap.get(win.id)`, and null when
    there is no feature. *)
Definition featureOf (win : WindowState.t) : option Feature.t :=
  match WindowState.id win with
  | Some i => featuresMap !! i
  | None => None
  end.

(** The `<Window>` elements DesktopView renders: the visible records that
    have a feature, each with its feature. *)
Definition renderedWindows (ws : gmap string WindowState.t) (desktop : string)
    : list (Feature.t * WindowState.t) :=
  omap (fun win => match featureOf win with
                   | Some feat => Some (feat, win)
                   | None => None
                   end)
       (getVisibleWindows ws desktop).

(** The events the rendered UI can produce: the dock and the taskbar call
    `openWindow` with ids of features only, the context menu with
    "settings". *)
Definition fromUI (ev : Event) : bool :=
  match ev with
  | OpenWindow f => bool_decide (is_Some (featuresMap !! f))
  | _ => true
  end.

(* --------------------------------------------------------------------- *)
(* SearchService                                                           *)
(* --------------------------------------------------------------------- *)

(** `type: 'feature' | 'document' | 'setting' | 'contact' | 'web' | 'action'` *)
Inductive SearchResultType :=
| ResultFeature | ResultDocument | ResultSetting | ResultContact
| ResultWeb | ResultAction.

Module SearchItem.

(** `Omit<SearchResult, 'score'>`; `Action` is the type of the closures
    stored in `action`. *)
Record t (Action : Type) := mk {
  id : string;
  title : string;
  description : string;
  icon : string;
  type : SearchResultType;
  action : Action
}.

Arguments mk {Action} id title description icon type action.
Arguments id {Action} t.
Arguments title {Action} t.
Arguments description {Action} t.
Arguments icon {Action} t.
Arguments type {Action} t.
Arguments action {Action} t.

End SearchItem.

(** `{ ...item, score }` *)
Record SearchResult (Action : Type) := {
  item : SearchItem.t Action;
  score : Z
}.

Arguments item {Action} s.
Arguments score {Action} s.

Module SearchService.

Section Search.

(** The closures, and the string built-ins `search` relies on:
    `String.prototype.toLowerCase`, `trim` and `includes`. *)
Context {Action : Type}.
Context (toLowerCase trim : string -> string).
Context (includes : string -> string -> bool).

(** `this.searchableItems.set(item.id, item)` on a Map kept in insertion
    order: an id already there keeps its place and gets the new item, a
    new id goes to the end. *)
Fixpoint indexItem (new : SearchItem.t Action)
    (items : list (SearchItem.t Action)) : list (SearchItem.t Action) :=
  match items with
  | [] => [new]
  | old :: rest =>
      if bool_decide (SearchItem.id old = SearchItem.id new)
      then new :: rest
      else old :: indexItem new rest
  end.

(** The body of the `forEach`: the score of one item, and the result it
    pushes when the score is positive. *)
Definition scoreOf (lowerQuery : string) (it : SearchItem.t Action) : Z :=
  if includes (toLowerCase (SearchItem.title it)) lowerQuery then 0 + 10 else 0.

Definition resultOf (lowerQuery : string) (it : SearchItem.t Action)
    : option (SearchResult Action) :=
  let s := scoreOf lowerQuery it in
  if 0 <? s then Some {| item := it; score := s |} else None.

(** `results.sort((a, b) => b.score - a.score)`: the stable sort by
    descending score, as an insertion sort. *)
Fixpoint insertByScore (r : SearchResult Action)
    (sorted : list (SearchResult Action)) : list (SearchResult Action) :=
  match sorted with
  | [] => [r]
  | s :: rest =>
      if score s <=? score r then r :: s :: rest
      else s :: insertByScore r rest
  end.

Definition sortByScore (results : list (SearchResult Action))
    : list (SearchResult Action) :=
  foldr insertByScore [] results.

(** `search(query)` *)
Definition search (query : string) (items : list (SearchItem.t Action))
    : list (SearchResult Action) :=
  let lowerQuery := toLowerCase query in
  if bool_decide (trim lowerQuery = "") then []
  else sortByScore (omap (resultOf lowerQuery) items).

(** The constructor: one item per feature, `openFeature f` standing for the
    closure `() => ActionManager.executeAction('open_feature', { featureId: f.id })`. *)
Definition create (openFeature : string -> Action)
    : list (SearchItem.t Action) :=
  foldl (fun items f =>
           indexItem
             (SearchItem.mk (String.append "feature-" (Feature.id f))
                (Feature.name f) (Feature.description f) (Feature.icon f)
                ResultFeature (openFeature (Feature.id f)))
             items)
        [] ALL_FEATURES.

End Search.

End SearchService.

(** ASCII renderings of the three built-ins, to run `search` on examples. *)
Definition asciiLower (c : ascii) : ascii :=
  let n := nat_of_ascii c in
  if (65 <=? n)%nat && (n <=? 90)%nat then ascii_of_nat (n + 32) else c.

Fixpoint asciiToLowerCase (s : string) : string :=
  match s with
  | EmptyString => EmptyString
  | String c rest => String (asciiLower c) (asciiToLowerCase rest)
  end.

Definition asciiIsSpace (c : ascii) : bool :=
  let n := nat_of_ascii c in
  (n =? 32)%nat || ((9 <=? n)%nat && (n <=? 13)%nat).

Fixpoint asciiTrimStart (s : string) : string :=
  match s with
  | EmptyString => EmptyString
  | String c rest => if asciiIsSpace c then asciiTrimStart rest else s
  end.

Fixpoint asciiTrimEnd (s : string) : string :=
  match s with
  | EmptyString => EmptyString
  | String c rest =>
      match asciiTrimEnd rest with
      | EmptyString => if asciiIsSpace c then EmptyString
                       else String c EmptyString
      | kept => String c kept
      end
  end.

Definition asciiTrim (s : string) : string := asciiTrimEnd (asciiTrimStart s).

Fixpoint asciiIncludes (s sub : string) : bool :=
  String.prefix sub s ||
  match s with
  | EmptyString => false
  | String _ rest => asciiIncludes rest sub
  end.

(** The `isActive` prop of a rendered window: `activeId === win.id`
    (`null` and an absent id are never equal). *)
Definition isActive (st : DesktopState) (win : WindowState.t) : bool :=
  match activeId st, WindowState.id win with
  | Some a, Some i => bool_decide (a = i)
  | _, _ => false
  end.

(** The stacking part of the invariant, which holds whatever ids are
    opened. *)
Record Stacking (st : DesktopState) : Prop := {
  st_bounded : zBounded (windows st) (nextZIndex st);
  st_distinct : zDistinct (windows st);
  st_active : activeAtCounter st
}.

(** Events that do not call `openWindow` with a name every object
    inherits. *)
Definition opensOwnName (ev : Event) : bool :=
  match ev with
  | OpenWindow f => negb (inheritsProperty f)
  | _ => true
  end.

(* ===================================================================== *)
(* Lemmas on single handlers                                               *)
(* ===================================================================== *)

Section Updaters.

Context (prev : gmap string WindowState.t).

Lemma over_absent {A : Type} (b : option A) : WindowState.over b None = b.
Proof. by destruct b. Qed.

Lemma spread_empty (u : WindowState.t) :
  WindowState.spread WindowState.empty u = u.
Proof.
  destruct u. unfold WindowState.spread. simpl. by rewrite !over_absent.
Qed.

Lemma plainGet_own key w : prev !! key = Some w -> plainGet prev key = Some w.
Proof. intros Hk. unfold plainGet. by rewrite Hk. Qed.

Lemma plainGet_undefined key :
  prev !! key = None -> inheritsProperty key = false ->
  plainGet prev key = None.
Proof. intros Hk Hn. unfold plainGet. by rewrite Hk, Hn. Qed.

Lemma plainGet_inherited key :
  prev !! key = None -> inheritsProperty key = true ->
  plainGet prev key = Some WindowState.empty.
Proof. intros Hk Hn. unfold plainGet. by rewrite Hk, Hn. Qed.

Lemma openWindowUpdater_fresh f z d :
  prev !! f = None ->
  inheritsProperty f = false ->
  openWindowUpdater f z d prev !! f =
    Some (WindowState.mk (Some f)
            (Some {| x := 50 + Z.of_nat (size prev) * 20;
                     y := 50 + Z.of_nat (size prev) * 20 |})
            (Some {| width := 800; height := 600 |})
            (Some (z + 1)) (Some false) (Some false) (Some false)
            (Some false) (Some d) (Some 1)).
Proof.
  intros Hf Hn. unfold openWindowUpdater.
  rewrite plainGet_undefined by done. apply lookup_insert_eq.
Qed.

(** For a name the store lacks but every object inherits, `prev[featureId]`
    is truthy: the restore branch runs on a value that spreads to `{}`. *)
Lemma openWindowUpdater_inherited f z d :
  prev !! f = None ->
  inheritsProperty f = true ->
  openWindowUpdater f z d prev !! f =
    Some (WindowState.withDesktopId d
            (WindowState.withZIndex (z + 1)
               (WindowState.withIsMinimized false WindowState.empty))).
Proof.
  intros Hf Hn. unfold openWindowUpdater.
  rewrite plainGet_inherited by done. apply lookup_insert_eq.
Qed.

Lemma openWindowUpdater_existing f z d w :
  prev !! f = Some w ->
  openWindowUpdater f z d prev !! f =
    Some (WindowState.withDesktopId d
            (WindowState.withZIndex (z + 1)
               (WindowState.withIsMinimized false w))).
Proof.
  intros Hf. unfold openWindowUpdater.
  rewrite (plainGet_own f w Hf). apply lookup_insert_eq.
Qed.

Lemma openWindowUpdater_other f z d j :
  f <> j -> openWindowUpdater f z d prev !! j = prev !! j.
Proof.
  intros Hne. unfold openWindowUpdater.
  destruct (plainGet prev f); by rewrite lookup_insert_ne.
Qed.

Lemma openWindowUpdater_dom f z d :
  dom (openWindowUpdater f z d prev) = {[f]} ∪ dom prev.
Proof.
  unfold openWindowUpdater. destruct (plainGet prev f); apply dom_insert_L.
Qed.

Lemma openWindowUpdater_zIndex f z d :
  exists w, openWindowUpdater f z d prev !! f = Some w /\
    WindowState.zIndex w = Some (z + 1) /\
    WindowState.desktopId w = Some d /\
    WindowState.isMinimized w = Some false.
Proof.
  unfold openWindowUpdater.
  destruct (plainGet prev f) as [w|]; rewrite lookup_insert_eq; eauto.
Qed.

Lemma updateWindowStateUpdater_absent id updates :
  prev !! id = None ->
  updateWindowStateUpdater id updates prev !! id = Some updates /\
  size (updateWindowStateUpdater id updates prev) = S (size prev).
Proof.
  intros Hid. unfold updateWindowStateUpdater. rewrite Hid. simpl.
  rewrite spread_empty. split.
  - apply lookup_insert_eq.
  - by apply map_size_insert_None.
Qed.

Lemma updateWindowStateUpdater_other id updates j :
  id <> j -> updateWindowStateUpdater id updates prev !! j = prev !! j.
Proof. intros Hne. unfold updateWindowStateUpdater. by rewrite lookup_insert_ne. Qed.

Lemma onFocusUpdater_other id z j :
  id <> j -> onFocusUpdater id z prev !! j = prev !! j.
Proof. intros Hne. unfold onFocusUpdater. by rewrite lookup_insert_ne. Qed.

Lemma onMinimizeUpdater_other id j :
  id <> j -> onMinimizeUpdater id prev !! j = prev !! j.
Proof. intros Hne. unfold onMinimizeUpdater. by rewrite lookup_insert_ne. Qed.

Lemma onMaximizeUpdater_present inner id w :
  prev !! id = Some w ->
  exists w',
    onMaximizeUpdater inner id prev = Some (<[id := w']> prev) /\
    WindowState.id w' = WindowState.id w /\
    WindowState.zIndex w' = WindowState.zIndex w /\
    WindowState.isMinimized w' = WindowState.isMinimized w /\
    WindowState.desktopId w' = WindowState.desktopId w /\
    WindowState.isMaximized w' =
      Some (negb (truthy (WindowState.isMaximized w))).
Proof.
  intros Hid. unfold onMaximizeUpdater. rewrite (plainGet_own id w Hid).
  eexists. split; [reflexivity|]. by repeat split.
Qed.

End Updaters.

(* ===================================================================== *)
(* The stacking invariant                                                  *)
(* ===================================================================== *)

Section Stacking.

Context (ws : gmap string WindowState.t) (n : Z).

(** Giving one window the next z-index keeps the indices bounded. *)
Lemma zBounded_raise k w' :
  zBounded ws n -> WindowState.zIndex w' = Some (n + 1) ->
  zBounded (<[k := w']> ws) (n + 1).
Proof.
  intros Hb Hz j w Hj. destruct (decide (k = j)) as [->|Hne].
  - rewrite lookup_insert_eq in Hj. inversion Hj; subst.
    exists (n + 1). split; [done|lia].
  - rewrite lookup_insert_ne in Hj by done.
    destruct (Hb j w Hj) as (z & Hzj & Hle). exists z. split; [done|lia].
Qed.

(** ... and distinct: the new index is above all the others. *)
Lemma zDistinct_raise k w' :
  zBounded ws n -> zDistinct ws -> WindowState.zIndex w' = Some (n + 1) ->
  zDistinct (<[k := w']> ws).
Proof.
  intros Hb Hd Hz i j wi wj Hi Hj Hij.
  rewrite lookup_insert in Hi. rewrite lookup_insert in Hj.
  repeat case_decide; simplify_eq; try (by eapply Hd).
  all: match goal with
       | H : ws !! _ = Some _ |- _ => destruct (Hb _ _ H) as (z & Hzz & Hle)
       end.
  all: first [ exists (n + 1), z; split; [done|]; split; [done|]; lia
             | exists z, (n + 1); split; [done|]; split; [done|]; lia ].
Qed.

(** Replacing a record by one with the same z-index changes nothing for
    the stacking. *)
Lemma zBounded_same k w w' :
  ws !! k = Some w -> WindowState.zIndex w' = WindowState.zIndex w ->
  zBounded ws n -> zBounded (<[k := w']> ws) n.
Proof.
  intros Hk Hz Hb j wj Hj. destruct (decide (k = j)) as [->|Hne].
  - rewrite lookup_insert_eq in Hj. inversion Hj; subst.
    rewrite Hz. by eapply Hb.
  - rewrite lookup_insert_ne in Hj by done. by eapply Hb.
Qed.

Lemma zDistinct_same k w w' :
  ws !! k = Some w -> WindowState.zIndex w' = WindowState.zIndex w ->
  zDistinct ws -> zDistinct (<[k := w']> ws).
Proof.
  intros Hk Hz Hd i j wi wj Hi Hj Hij.
  rewrite lookup_insert in Hi. rewrite lookup_insert in Hj.
  repeat case_decide; simplify_eq; try rewrite Hz; by eapply Hd.
Qed.

Lemma keyed_insert k w' :
  WindowState.id w' = Some k -> keyed ws -> keyed (<[k := w']> ws).
Proof.
  intros Hid Hk j w Hj. destruct (decide (k = j)) as [->|Hne].
  - rewrite lookup_insert_eq in Hj. by inversion Hj; subst.
  - rewrite lookup_insert_ne in Hj by done. by apply Hk.
Qed.

Lemma keyed_delete k : keyed ws -> keyed (delete k ws).
Proof.
  intros Hk j w Hj. apply lookup_delete_Some in Hj as [_ Hj]. by apply Hk.
Qed.

Lemma zBounded_delete k : zBounded ws n -> zBounded (delete k ws) n.
Proof.
  intros Hb j w Hj. apply lookup_delete_Some in Hj as [_ Hj]. by eapply Hb.
Qed.

Lemma zDistinct_delete k : zDistinct ws -> zDistinct (delete k ws).
Proof.
  intros Hd i j wi wj Hi Hj Hij.
  apply lookup_delete_Some in Hi as [_ Hi].
  apply lookup_delete_Some in Hj as [_ Hj]. by eapply Hd.
Qed.

End Stacking.

(** `openWindow`'s updater writes exactly one key, with the next z-index,
    and with the key as `id` when the store is keyed and the name is not an
    inherited one. *)
Lemma openWindowUpdater_insert f z d (prev : gmap string WindowState.t) :
  exists w',
    openWindowUpdater f z d prev = <[f := w']> prev /\
    WindowState.zIndex w' = Some (z + 1) /\
    (inheritsProperty f = false -> keyed prev -> WindowState.id w' = Some f).
Proof.
  unfold openWindowUpdater, plainGet. destruct (prev !! f) as [w|] eqn:Hf.
  - eexists. split; [reflexivity|]. split; [done|].
    intros _ Hk. simpl. by apply Hk.
  - destruct (inheritsProperty f).
    + eexists. split; [reflexivity|]. by split.
    + eexists. split; [reflexivity|]. by split.
Qed.

Lemma Inv_Stacking st : Inv st -> Stacking st.
Proof. intros [_ Hb Hd Ha]. by split. Qed.

Lemma Inv_initial svc : Inv (initialView svc).
Proof.
  split; simpl.
  - intros k w Hk. by rewrite lookup_empty in Hk.
  - intros k w Hk. by rewrite lookup_empty in Hk.
  - intros i j wi wj Hi. by rewrite lookup_empty in Hi.
  - intros a wa Ha. done.
Qed.

Lemma Stacking_openWindow f st : Stacking st -> Stacking (openWindow f st).
Proof.
  intros [Hb Hd Ha].
  destruct (openWindowUpdater_insert f (nextZIndex st) (activeDesktopId st)
              (windows st)) as (w' & Heq & Hz & _).
  split; unfold activeAtCounter; simpl; rewrite Heq.
  - by apply zBounded_raise.
  - by eapply zDistinct_raise.
  - intros a wa [= <-] Hl. rewrite lookup_insert_eq in Hl. by inversion Hl; subst.
Qed.

Lemma Inv_openWindow f st :
  inheritsProperty f = false -> Inv st -> Inv (openWindow f st).
Proof.
  intros Hown HI.
  destruct (Stacking_openWindow f st (Inv_Stacking st HI)) as [Hb Hd Ha].
  split; try done.
  destruct (openWindowUpdater_insert f (nextZIndex st) (activeDesktopId st)
              (windows st)) as (w' & Heq & _ & Hid).
  simpl. rewrite Heq. apply keyed_insert; [|by destruct HI]. apply Hid; [done|].
  by destruct HI.
Qed.

Lemma Stacking_closeWindow id st : Stacking st -> Stacking (closeWindow id st).
Proof.
  intros [Hb Hd Ha].
  split; unfold activeAtCounter; simpl; unfold closeWindowUpdater.
  - by apply zBounded_delete.
  - by apply zDistinct_delete.
  - intros a wa Hact Hl. apply lookup_delete_Some in Hl as [_ Hl].
    by eapply Ha.
Qed.

Lemma Inv_closeWindow id st : Inv st -> Inv (closeWindow id st).
Proof.
  intros HI.
  destruct (Stacking_closeWindow id st (Inv_Stacking st HI)) as [Hb Hd Ha].
  split; try done. simpl. unfold closeWindowUpdater.
  apply keyed_delete. by destruct HI.
Qed.

(** Replacing the record under a present key by one that keeps `zIndex`,
    with the counter and the active id untouched. *)
Lemma Stacking_replace st k w w' :
  windows st !! k = Some w ->
  WindowState.zIndex w' = WindowState.zIndex w ->
  Stacking st ->
  Stacking {| windows := <[k := w']> (windows st);
              activeId := activeId st;
              nextZIndex := nextZIndex st;
              activeDesktopId := activeDesktopId st |}.
Proof.
  intros Hl Hz [Hb Hd Ha].
  split; unfold activeAtCounter; simpl.
  - by eapply zBounded_same.
  - by eapply zDistinct_same.
  - intros a wa Hact Hla. destruct (decide (k = a)) as [->|Hne].
    + rewrite lookup_insert_eq in Hla. inversion Hla; subst.
      rewrite Hz. by eapply Ha.
    + rewrite lookup_insert_ne in Hla by done. by eapply Ha.
Qed.

(** ... and the whole invariant when it keeps `id` as well. *)
Lemma Inv_replace st k w w' :
  windows st !! k = Some w ->
  WindowState.id w' = WindowState.id w ->
  WindowState.zIndex w' = WindowState.zIndex w ->
  Inv st ->
  Inv {| windows := <[k := w']> (windows st);
         activeId := activeId st;
         nextZIndex := nextZIndex st;
         activeDesktopId := activeDesktopId st |}.
Proof.
  intros Hl Hid Hz HI.
  destruct (Stacking_replace st k w w' Hl Hz (Inv_Stacking st HI))
    as [Hb Hd Ha].
  split; try done. simpl.
  apply keyed_insert; [|by destruct HI]. rewrite Hid. by apply HI.
Qed.

Lemma Stacking_onMinimize id st :
  is_Some (windows st !! id) -> Stacking st -> Stacking (onMinimize id st).
Proof.
  intros [w Hl] HS. unfold onMinimize, onMinimizeUpdater. rewrite Hl. simpl.
  by eapply Stacking_replace.
Qed.

Lemma Inv_onMinimize id st :
  is_Some (windows st !! id) -> Inv st -> Inv (onMinimize id st).
Proof.
  intros [w Hl] HI. unfold onMinimize, onMinimizeUpdater. rewrite Hl. simpl.
  by eapply Inv_replace.
Qed.

Lemma onMaximize_present inner id st w :
  windows st !! id = Some w ->
  exists w',
    onMaximize inner id st =
      Some {| windows := <[id := w']> (windows st);
              activeId := activeId st;
              nextZIndex := nextZIndex st;
              activeDesktopId := activeDesktopId st |} /\
    WindowState.id w' = WindowState.id w /\
    WindowState.zIndex w' = WindowState.zIndex w /\
    WindowState.desktopId w' = WindowState.desktopId w.
Proof.
  intros Hl.
  destruct (onMaximizeUpdater_present (windows st) inner id w Hl)
    as (w' & Heq & Hid & Hz & _ & Hd & _).
  exists w'. unfold onMaximize. rewrite Heq. done.
Qed.

Lemma Stacking_onMaximize inner id st st' :
  is_Some (windows st !! id) ->
  onMaximize inner id st = Some st' -> Stacking st -> Stacking st'.
Proof.
  intros [w Hl] Hm HS.
  destruct (onMaximize_present inner id st w Hl) as (w' & Heq & _ & Hz & _).
  rewrite Heq in Hm. inversion Hm; subst. by eapply Stacking_replace.
Qed.

Lemma Inv_onMaximize inner id st st' :
  is_Some (windows st !! id) ->
  onMaximize inner id st = Some st' -> Inv st -> Inv st'.
Proof.
  intros [w Hl] Hm HI.
  destruct (onMaximize_present inner id st w Hl) as (w' & Heq & Hid & Hz & _).
  rewrite Heq in Hm. inversion Hm; subst. by eapply Inv_replace.
Qed.

Lemma Stacking_onFocus id st :
  is_Some (windows st !! id) -> Stacking st -> Stacking (onFocus id st).
Proof.
  intros [w Hl] [Hb Hd Ha].
  split; unfold activeAtCounter, onFocus, onFocusUpdater; simpl; rewrite Hl; simpl.
  - by apply zBounded_raise.
  - by eapply zDistinct_raise.
  - intros a wa [= <-] Hla. rewrite lookup_insert_eq in Hla.
    by inversion Hla; subst.
Qed.

Lemma Inv_onFocus id st :
  is_Some (windows st !! id) -> Inv st -> Inv (onFocus id st).
Proof.
  intros [w Hl] HI.
  destruct (Stacking_onFocus id st (ex_intro _ w Hl) (Inv_Stacking st HI))
    as [Hb Hd Ha].
  split; try done. simpl. unfold onFocusUpdater. rewrite Hl. simpl.
  apply keyed_insert; [|by destruct HI]. simpl. by apply HI.
Qed.

Lemma switchDesktop_view id sys :
  windows (view (switchDesktop id sys)) = windows (view sys) /\
  activeId (view (switchDesktop id sys)) = activeId (view sys) /\
  nextZIndex (view (switchDesktop id sys)) = nextZIndex (view sys).
Proof.
  unfold switchDesktop, VirtualDesktopService.setActiveDesktop.
  by destruct (_ && _).
Qed.

Lemma Stacking_switchDesktop id sys :
  Stacking (view sys) -> Stacking (view (switchDesktop id sys)).
Proof.
  intros [Hb Hd Ha].
  destruct (switchDesktop_view id sys) as (Hw & Hact & Hn).
  split; unfold activeAtCounter; rewrite ?Hw, ?Hact, ?Hn; done.
Qed.

Lemma Inv_switchDesktop id sys :
  Inv (view sys) -> Inv (view (switchDesktop id sys)).
Proof.
  intros [Hk Hb Hd Ha].
  destruct (switchDesktop_view id sys) as (Hw & Hact & Hn).
  split; unfold activeAtCounter; rewrite ?Hw, ?Hact, ?Hn; done.
Qed.

Lemma Stacking_dispatch ev sys sys' :
  dispatch ev sys = Some sys' -> Stacking (view sys) -> Stacking (view sys').
Proof.
  destruct ev as [f|id|id|id inner|id|id]; simpl; intros Hd HS.
  - inversion Hd; subst. by apply Stacking_openWindow.
  - case_decide; [|done]. inversion Hd; subst. by apply Stacking_closeWindow.
  - case_decide; [|done]. inversion Hd; subst. by apply Stacking_onMinimize.
  - case_decide; [|done].
    destruct (onMaximize inner id (view sys)) as [st'|] eqn:Hm; [|done].
    inversion Hd; subst. by eapply Stacking_onMaximize.
  - case_decide; [|done]. inversion Hd; subst. by apply Stacking_onFocus.
  - inversion Hd; subst. by apply Stacking_switchDesktop.
Qed.

Lemma Inv_dispatch ev sys sys' :
  opensOwnName ev = true ->
  dispatch ev sys = Some sys' -> Inv (view sys) -> Inv (view sys').
Proof.
  destruct ev as [f|id|id|id inner|id|id]; simpl; intros Hown Hd HI.
  - inversion Hd; subst. apply Inv_openWindow; [|done].
    by apply negb_true_iff.
  - case_decide; [|done]. inversion Hd; subst. by apply Inv_closeWindow.
  - case_decide; [|done]. inversion Hd; subst. by apply Inv_onMinimize.
  - case_decide; [|done].
    destruct (onMaximize inner id (view sys)) as [st'|] eqn:Hm; [|done].
    inversion Hd; subst. by eapply Inv_onMaximize.
  - case_decide; [|done]. inversion Hd; subst. by apply Inv_onFocus.
  - inversion Hd; subst. by apply Inv_switchDesktop.
Qed.

Lemma Stacking_run evs : forall sys sys',
  run evs sys = Some sys' -> Stacking (view sys) -> Stacking (view sys').
Proof.
  induction evs as [|ev rest IH]; simpl; intros sys sys' Hr HS.
  - by inversion Hr; subst.
  - destruct (dispatch ev sys) as [sys1|] eqn:Hd; [|done].
    eapply IH; [exact Hr|]. by eapply Stacking_dispatch.
Qed.

(** The whole invariant, keyed store included, holds along the traces that
    open no inherited name. *)
Lemma Inv_run evs : forall sys sys',
  forallb opensOwnName evs = true ->
  run evs sys = Some sys' -> Inv (view sys) -> Inv (view sys').
Proof.
  induction evs as [|ev rest IH]; simpl; intros sys sys' Hown Hr HI.
  - by inversion Hr; subst.
  - destruct (dispatch ev sys) as [sys1|] eqn:Hd; [|done].
    apply andb_true_iff in Hown as [Hev Hrest].
    eapply IH; [exact Hrest|exact Hr|]. by eapply Inv_dispatch.
Qed.

(** Every state the UI can be in satisfies the stacking invariant. *)
Lemma reachable_Stacking sys : reachable sys -> Stacking (view sys).
Proof.
  intros [evs Hr]. eapply Stacking_run; [exact Hr|].
  apply Inv_Stacking, Inv_initial.
Qed.

Lemma activeId_dispatch ev sys sys' :
  dispatch ev sys = Some sys' ->
  forall rest,
    lastActivated (ev :: rest) (activeId (view sys)) =
    lastActivated rest (activeId (view sys')).
Proof.
  destruct ev as [f|id|id|id inner|id|id]; simpl; intros Hd rest.
  - by inversion Hd; subst.
  - case_decide; [|done]. by inversion Hd; subst.
  - case_decide; [|done]. by inversion Hd; subst.
  - case_decide; [|done]. unfold onMaximize in Hd.
    destruct (onMaximizeUpdater inner id (windows (view sys))); [|done].
    by inversion Hd; subst.
  - case_decide; [|done]. by inversion Hd; subst.
  - inversion Hd; subst.
    by destruct (switchDesktop_view id sys) as (_ & -> & _).
Qed.

Lemma activeId_run evs : forall sys sys',
  run evs sys = Some sys' ->
  activeId (view sys') = lastActivated evs (activeId (view sys)).
Proof.
  induction evs as [|ev rest IH]; intros sys sys' Hr.
  - simpl in Hr. by inversion Hr; subst.
  - simpl in Hr. destruct (dispatch ev sys) as [sys1|] eqn:Hd; [|done].
    rewrite (activeId_dispatch ev sys sys1 Hd). by apply IH.
Qed.

Lemma Stacking_activeOnTop st : Stacking st -> activeOnTop st.
Proof.
  intros [Hb _ Ha] a wa Hact Hl.
  exists (nextZIndex st). split; [by eapply Ha|].
  intros j wj Hj. by apply (Hb j wj).
Qed.

(* ===================================================================== *)
(* Opening and restoring                                                   *)
(* ===================================================================== *)

Lemma openWindow_other f j st :
  f <> j -> windows (openWindow f st) !! j = windows st !! j.
Proof. intros Hne. simpl. by apply openWindowUpdater_other. Qed.

Lemma dom_openWindows ids : forall st,
  dom (windows (foldl (fun s f => openWindow f s) st ids)) =
  list_to_set ids ∪ dom (windows st).
Proof.
  induction ids as [|f rest IH]; intros st; simpl.
  - by rewrite (left_id_L ∅ (∪)).
  - rewrite IH. simpl. rewrite openWindowUpdater_dom.
    by rewrite (assoc_L (∪)), (comm_L (∪) (list_to_set rest) {[f]}).
Qed.

(* ===================================================================== *)
(* What the render filter returns                                          *)
(* ===================================================================== *)

Lemma elem_of_values (ws : gmap string WindowState.t) (w : WindowState.t) :
  w ∈ values ws <-> exists k, ws !! k = Some w.
Proof.
  unfold values. rewrite list_elem_of_fmap. split.
  - intros ([k w'] & -> & Hin). exists k. by apply elem_of_map_to_list.
  - intros (k & Hk). exists (k, w). split; [done|].
    by apply elem_of_map_to_list.
Qed.

Lemma isVisible_spec desktop w :
  isVisible desktop w = true <->
  WindowState.desktopId w = Some desktop /\
  truthy (WindowState.isMinimized w) = false.
Proof.
  unfold isVisible. rewrite andb_true_iff, negb_true_iff, bool_decide_eq_true.
  tauto.
Qed.

Lemma elem_of_getVisibleWindows (ws : gmap string WindowState.t) desktop w :
  w ∈ getVisibleWindows ws desktop <->
  exists k, ws !! k = Some w /\
    WindowState.desktopId w = Some desktop /\
    truthy (WindowState.isMinimized w) = false.
Proof.
  unfold getVisibleWindows.
  rewrite list_elem_of_In, filter_In, <- list_elem_of_In, elem_of_values,
    isVisible_spec.
  split.
  - intros [[k Hk] Hv]. by exists k.
  - intros (k & Hk & Hv). split; [by exists k|done].
Qed.

(** Every event whose window is in the store is handled: the option in
    `dispatch` only rules out chrome events of windows that are not
    there. *)
Lemma dispatch_enabled ev sys :
  (forall id, target ev = Some id -> is_Some (windows (view sys) !! id)) ->
  is_Some (dispatch ev sys).
Proof.
  destruct ev as [f|id|id|id inner|id|id]; simpl; intros Ht; try by eexists.
  - rewrite decide_True by auto. by eexists.
  - rewrite decide_True by auto. by eexists.
  - rewrite decide_True by auto. destruct (Ht id eq_refl) as [w Hw].
    destruct (onMaximize_present inner id (view sys) w Hw) as (w' & -> & _).
    by eexists.
  - rewrite decide_True by auto. by eexists.
Qed.

(* ===================================================================== *)
(* The claims                                                              *)
(* ===================================================================== *)

(** C1, as the spec states it, fails: `updateWindowState` on an id the
    store does not hold is no no-op.  On the empty store the patch
    `{ isDragging: false }` for "calculator" inserts a record that holds
    nothing but `isDragging`, so the store changes. *)
Lemma updateWindowState_unknown_id_creates_record :
  let st := view initialSystem in
  let patch :=
    WindowState.mk None None None None None None None (Some false) None None in
  windows st !! "calculator" = None /\
  windows (updateWindowState "calculator" patch st) !! "calculator"
    = Some patch /\
  size (windows (updateWindowState "calculator" patch st)) = 1%nat /\
  windows (updateWindowState "calculator" patch st) <> windows st.
Proof.
  intros st patch.
  assert (Habs : windows st !! "calculator" = None) by apply lookup_empty.
  destruct (updateWindowStateUpdater_absent (windows st) "calculator" patch Habs)
    as [Hl Hs].
  split; [done|]. split; [exact Hl|]. split; [exact Hs|].
  intros Heq.
  change (windows (updateWindowState "calculator" patch st) !! "calculator"
          = Some patch) in Hl.
  rewrite Heq in Hl. congruence.
Qed.

(** C1, amended.  `updateWindowState` has no existence test, like every
    patch handler of the view, and signals nothing: on an id the store does
    not hold it modifies no existing record, and inserts under that id one
    new record that holds exactly the properties of the patch; the active
    id, the z-index counter and the active desktop are untouched. *)
Theorem updateWindowState_unknown_id_inserts_patch
    (id : string) (updates : WindowState.t) (st : DesktopState) :
  windows st !! id = None ->
  windows (updateWindowState id updates st) !! id = Some updates /\
  (forall j, id <> j ->
     windows (updateWindowState id updates st) !! j = windows st !! j) /\
  size (windows (updateWindowState id updates st)) = S (size (windows st)) /\
  activeId (updateWindowState id updates st) = activeId st /\
  nextZIndex (updateWindowState id updates st) = nextZIndex st /\
  activeDesktopId (updateWindowState id updates st) = activeDesktopId st.
Proof.
  intros Hid.
  destruct (updateWindowStateUpdater_absent (windows st) id updates Hid)
    as [Hl Hs].
  split; [exact Hl|]. split; [|by split].
  intros j Hne. by apply updateWindowStateUpdater_other.
Qed.

Lemma updateWindowState_unknown_id_inserts_patch_witness :
  let st := openWindow "calculator" (view initialSystem) in
  let patch := WindowState.mk None (Some {| x := 10; y := 20 |}) None None
                 None None None (Some true) None None in
  windows st !! "settings" = None /\
  windows (updateWindowState "settings" patch st) !! "settings" = Some patch /\
  windows (updateWindowState "settings" patch st) !! "calculator"
    = windows st !! "calculator".
Proof.
  intros st patch. split; [vm_compute; reflexivity|].
  destruct (updateWindowState_unknown_id_inserts_patch "settings" patch st
              ltac:(vm_compute; reflexivity)) as (Hl & Hother & _).
  split; [exact Hl|]. apply Hother. discriminate.
Defined.

(** C2.  In every state that a sequence of open, close, minimize,
    maximize-toggle, focus (and desktop-switch) events reaches from the
    first mount, the active id is the window named by the last open or
    focus, the z-indices of the records in the store are pairwise
    distinct, and the active window, while it is in the store, has the
    greatest z-index of the store. *)
Theorem zIndex_distinct_and_active_on_top (evs : list Event) (sys : System) :
  run evs initialSystem = Some sys ->
  activeId (view sys) = lastActivated evs None /\
  zDistinct (windows (view sys)) /\
  activeOnTop (view sys).
Proof.
  intros Hr.
  assert (HI : Stacking (view sys))
    by (apply reachable_Stacking; by exists evs).
  split; [exact (activeId_run evs initialSystem sys Hr)|].
  split; [by destruct HI|by apply Stacking_activeOnTop].
Qed.

Lemma zIndex_distinct_and_active_on_top_witness :
  exists sys,
    run [OpenWindow "calculator"; OpenWindow "settings"; Minimize "settings";
         Focus "calculator";
         Maximize "calculator" {| innerWidth := 1920; innerHeight := 1080 |};
         OpenWindow "settings"; CloseWindow "calculator"]
        initialSystem = Some sys /\
    activeId (view sys) = Some "settings" /\
    zDistinct (windows (view sys)) /\
    activeOnTop (view sys).
Proof.
  eexists. split; [vm_compute; reflexivity|].
  apply (zIndex_distinct_and_active_on_top
           [OpenWindow "calculator"; OpenWindow "settings"; Minimize "settings";
            Focus "calculator";
            Maximize "calculator" {| innerWidth := 1920; innerHeight := 1080 |};
            OpenWindow "settings"; CloseWindow "calculator"]).
  vm_compute. reflexivity.
Defined.

(** C3, as the spec states it, fails: a window opened on "desktop-1" and
    reopened after a switch to "desktop-2" is moved to "desktop-2". *)
Lemma reopen_moves_window_to_active_desktop :
  exists sys w w',
    run [OpenWindow "calculator"; SwitchDesktop "desktop-2"] initialSystem
      = Some sys /\
    windows (view sys) !! "calculator" = Some w /\
    windows (openWindow "calculator" (view sys)) !! "calculator" = Some w' /\
    WindowState.desktopId w = Some "desktop-1" /\
    WindowState.desktopId w' = Some "desktop-2" /\
    WindowState.desktopId w' <> WindowState.desktopId w.
Proof.
  do 3 eexists.
  split; [vm_compute; reflexivity|].
  split; [vm_compute; reflexivity|].
  split; [vm_compute; reflexivity|].
  split; [reflexivity|]. split; [reflexivity|]. discriminate.
Qed.

(** C3, amended.  A window's desktopId is set at creation to the active
    desktop; `openWindow` on an id the store holds clears isMinimized,
    gives the window the next z-index, makes it active and sets its
    desktopId to the active desktop; `openWindow` touches no other record;
    minimize, maximize-toggle, focus and a desktop switch leave the
    desktopId of every record as it was. *)
Theorem desktopId_set_by_open_only (st : DesktopState) (f : string) :
  (windows st !! f = None ->
     exists w', windows (openWindow f st) !! f = Some w' /\
       WindowState.desktopId w' = Some (activeDesktopId st)) /\
  (forall w, windows st !! f = Some w ->
     exists w', windows (openWindow f st) !! f = Some w' /\
       WindowState.isMinimized w' = Some false /\
       WindowState.zIndex w' = Some (nextZIndex st + 1) /\
       activeId (openWindow f st) = Some f /\
       WindowState.desktopId w' = Some (activeDesktopId st)) /\
  (forall j, f <> j -> windows (openWindow f st) !! j = windows st !! j) /\
  (forall j w, windows st !! j = Some w ->
     (exists w', windows (onMinimize f st) !! j = Some w' /\
        WindowState.desktopId w' = WindowState.desktopId w) /\
     (exists w', windows (onFocus f st) !! j = Some w' /\
        WindowState.desktopId w' = WindowState.desktopId w) /\
     (forall inner st', onMaximize inner f st = Some st' ->
        exists w', windows st' !! j = Some w' /\
          WindowState.desktopId w' = WindowState.desktopId w)) /\
  (forall svc, windows (view (switchDesktop f {| virtualDesktops := svc;
                                                 view := st |}))
               = windows st).
Proof.
  split; [|split; [|split; [|split]]].
  - intros Hf.
    destruct (openWindowUpdater_zIndex (windows st) f (nextZIndex st)
                (activeDesktopId st)) as (w' & Hl & _ & Hd & _).
    by exists w'.
  - intros w Hf. eexists. split; [by apply openWindowUpdater_existing|done].
  - intros j Hne. by apply openWindow_other.
  - intros j w Hj. split; [|split].
    + simpl. unfold onMinimizeUpdater. rewrite lookup_insert.
      case_decide; simplify_eq; [|by eauto]. rewrite Hj. by eexists.
    + simpl. unfold onFocusUpdater. rewrite lookup_insert.
      case_decide; simplify_eq; [|by eauto]. rewrite Hj. by eexists.
    + intros inner st' Hm. unfold onMaximize in Hm.
      destruct (windows st !! f) as [wf|] eqn:Hf.
      * destruct (onMaximizeUpdater_present (windows st) inner f wf Hf)
          as (w' & Heq & _ & _ & _ & Hd & _).
        rewrite Heq in Hm. inversion Hm; subst; simpl.
        rewrite lookup_insert. case_decide; simplify_eq; eauto.
      * unfold onMaximizeUpdater, plainGet in Hm. rewrite Hf in Hm.
        destruct (inheritsProperty f); [|done].
        inversion Hm; subst; simpl.
        rewrite lookup_insert_ne by congruence. eauto.
  - intros svc.
    by destruct (switchDesktop_view f {| virtualDesktops := svc; view := st |})
      as (-> & _).
Qed.

Lemma desktopId_set_by_open_only_witness :
  let st := openWindow "calculator" (view initialSystem) in
  windows st !! "settings" = None /\
  (exists w', windows (openWindow "settings" st) !! "settings" = Some w' /\
     WindowState.desktopId w' = Some (activeDesktopId st)).
Proof.
  intros st. split; [vm_compute; reflexivity|].
  apply (desktopId_set_by_open_only st "settings"). vm_compute. reflexivity.
Defined.

(** C4.  `onMaximize` toggles: a window that is not maximized gets the
    size (innerWidth, innerHeight - 60), the position (0, 0) and
    isMaximized = true; a maximized window gets the size (800, 600), the
    position (50, 50) and isMaximized = false, whatever its geometry was
    before it was maximized; no other record changes. *)
Theorem onMaximize_toggles_fixed_geometry
    (inner : Viewport) (id : string) (p : gmap string WindowState.t)
    (w : WindowState.t) :
  p !! id = Some w ->
  exists w',
    onMaximizeUpdater inner id p = Some (<[id := w']> p) /\
    (WindowState.isMaximized w <> Some true ->
       WindowState.size w' =
         Some {| width := innerWidth inner; height := innerHeight inner - 60 |} /\
       WindowState.position w' = Some {| x := 0; y := 0 |} /\
       WindowState.isMaximized w' = Some true) /\
    (WindowState.isMaximized w = Some true ->
       WindowState.size w' = Some {| width := 800; height := 600 |} /\
       WindowState.position w' = Some {| x := 50; y := 50 |} /\
       WindowState.isMaximized w' = Some false) /\
    (forall inner2, exists w'',
       onMaximizeUpdater inner2 id (<[id := w']> p) = Some (<[id := w'']> p) /\
       (WindowState.isMaximized w <> Some true ->
          WindowState.size w'' = Some {| width := 800; height := 600 |} /\
          WindowState.position w'' = Some {| x := 50; y := 50 |} /\
          WindowState.isMaximized w'' = Some false)).
Proof.
  intros Hid. unfold onMaximizeUpdater at 1. rewrite (plainGet_own p id w Hid).
  eexists. split; [reflexivity|]. simpl.
  split; [|split].
  - intros Hn. destruct (WindowState.isMaximized w) as [[|]|]; done.
  - intros ->. done.
  - intros inner2. unfold onMaximizeUpdater, plainGet.
    rewrite lookup_insert_eq.
    eexists. split; [by rewrite insert_insert_eq|]. simpl.
    intros Hn. destruct (WindowState.isMaximized w) as [[|]|]; done.
Qed.

Lemma onMaximize_toggles_fixed_geometry_witness :
  let p := windows (openWindow "calculator" (view initialSystem)) in
  let inner := {| innerWidth := 1920; innerHeight := 1080 |} in
  exists w,
    p !! "calculator" = Some w /\
    exists w',
      onMaximizeUpdater inner "calculator" p = Some (<["calculator" := w']> p) /\
      WindowState.size w' = Some {| width := 1920; height := 1020 |} /\
      WindowState.position w' = Some {| x := 0; y := 0 |}.
Proof.
  intros p inner. eexists. split; [vm_compute; reflexivity|].
  destruct (onMaximize_toggles_fixed_geometry inner "calculator" p _
              ltac:(vm_compute; reflexivity))
    as (w' & Heq & Henter & _).
  exists w'. split; [exact Heq|].
  destruct (Henter ltac:(discriminate)) as (Hs & Hp & _).
  split; [exact Hs|exact Hp].
Defined.

(** C5, as the spec states it, fails once a close comes between two
    opens: the second window created lands on (50, 50) again, not on
    (70, 70). *)
Lemma stagger_restarts_after_close :
  createdPositions
    [OpenWindow "calculator"; CloseWindow "calculator"; OpenWindow "settings"]
    initialSystem
    = [Some {| x := 50; y := 50 |}; Some {| x := 50; y := 50 |}] /\
  ~ cascadesFromPrevious
      [OpenWindow "calculator"; CloseWindow "calculator"; OpenWindow "settings"].
Proof.
  split; [vm_compute; reflexivity|].
  intros Hc.
  specialize (Hc 1%nat (Some {| x := 50; y := 50 |})
                ltac:(vm_compute; reflexivity)).
  discriminate Hc.
Qed.

(** C5, amended.  `openWindow` of an id that the store does not hold, and
    that is not a name every object inherits, creates the window with size
    (800, 600) at (50 + 20n, 50 + 20n), n being the number of records in
    the store at that moment; so the first such window opened on the empty
    store is at (50, 50) and a second one, opened while the first is still
    there, at (70, 70). *)
Theorem openWindow_fresh_geometry :
  (forall (st : DesktopState) (f : string),
     windows st !! f = None ->
     inheritsProperty f = false ->
     exists w, windows (openWindow f st) !! f = Some w /\
       WindowState.size w = Some {| width := 800; height := 600 |} /\
       WindowState.position w =
         Some {| x := 50 + 20 * Z.of_nat (size (windows st));
                 y := 50 + 20 * Z.of_nat (size (windows st)) |}) /\
  (forall (svc : VirtualDesktopService.t) (f1 f2 : string),
     f1 <> f2 ->
     inheritsProperty f1 = false ->
     inheritsProperty f2 = false ->
     exists w1 w2,
       windows (openWindow f1 (initialView svc)) !! f1 = Some w1 /\
       WindowState.position w1 = Some {| x := 50; y := 50 |} /\
       windows (openWindow f2 (openWindow f1 (initialView svc))) !! f2
         = Some w2 /\
       WindowState.position w2 = Some {| x := 70; y := 70 |}).
Proof.
  assert (Hgen : forall (st : DesktopState) (f : string),
     windows st !! f = None ->
     inheritsProperty f = false ->
     exists w, windows (openWindow f st) !! f = Some w /\
       WindowState.size w = Some {| width := 800; height := 600 |} /\
       WindowState.position w =
         Some {| x := 50 + 20 * Z.of_nat (size (windows st));
                 y := 50 + 20 * Z.of_nat (size (windows st)) |}).
  { intros st f Hf Hown. eexists. split; [by apply openWindowUpdater_fresh|].
    split; [done|]. simpl. f_equal. f_equal; lia. }
  split; [exact Hgen|].
  intros svc f1 f2 Hne Hown1 Hown2.
  assert (H1 : windows (initialView svc) !! f1 = None) by apply lookup_empty.
  destruct (Hgen _ _ H1 Hown1) as (w1 & Hl1 & _ & Hp1).
  assert (H2 : windows (openWindow f1 (initialView svc)) !! f2 = None).
  { rewrite openWindow_other by done. apply lookup_empty. }
  destruct (Hgen _ _ H2 Hown2) as (w2 & Hl2 & _ & Hp2).
  assert (Hsz : size (windows (openWindow f1 (initialView svc))) = 1%nat).
  { simpl.
    destruct (openWindowUpdater_insert f1 Z_INDEX_BASE
                (VirtualDesktopService.getActiveDesktopId svc) ∅)
      as (w' & -> & _).
    by rewrite map_size_insert_None, map_size_empty by apply lookup_empty. }
  exists w1, w2. split; [exact Hl1|]. split.
  - rewrite Hp1. simpl. by rewrite map_size_empty.
  - split; [exact Hl2|]. rewrite Hp2, Hsz. done.
Qed.

Lemma openWindow_fresh_geometry_witness :
  let st := openWindow "calculator" (view initialSystem) in
  windows st !! "settings" = None /\
  inheritsProperty "settings" = false /\
  exists w, windows (openWindow "settings" st) !! "settings" = Some w /\
    WindowState.size w = Some {| width := 800; height := 600 |} /\
    WindowState.position w = Some {| x := 70; y := 70 |}.
Proof.
  intros st. split; [vm_compute; reflexivity|]. split; [reflexivity|].
  destruct (proj1 openWindow_fresh_geometry st "settings"
              ltac:(vm_compute; reflexivity) ltac:(reflexivity))
    as (w & Hl & Hs & Hp).
  exists w. split; [exact Hl|]. split; [exact Hs|]. exact Hp.
Defined.

(** C6.  `getVisibleWindows` returns exactly the records of the store
    whose desktopId is the active desktop and that are not minimized; after
    `closeWindow(id)` every record it returns, for any desktop, is stored
    under another key, and in a keyed store none of them has `id` as its
    id. *)
Theorem getVisibleWindows_exact (ws : gmap string WindowState.t) :
  (forall desktop w,
     w ∈ getVisibleWindows ws desktop <->
     exists k, ws !! k = Some w /\
       WindowState.desktopId w = Some desktop /\
       truthy (WindowState.isMinimized w) = false) /\
  (forall id desktop w,
     w ∈ getVisibleWindows (closeWindowUpdater id ws) desktop ->
     exists k, k <> id /\ ws !! k = Some w) /\
  (keyed ws ->
   forall id desktop w,
     w ∈ getVisibleWindows (closeWindowUpdater id ws) desktop ->
     WindowState.id w <> Some id).
Proof.
  assert (Hclose : forall id desktop w,
     w ∈ getVisibleWindows (closeWindowUpdater id ws) desktop ->
     exists k, k <> id /\ ws !! k = Some w).
  { intros id desktop w Hin.
    apply elem_of_getVisibleWindows in Hin as (k & Hk & _).
    unfold closeWindowUpdater in Hk.
    apply lookup_delete_Some in Hk as [Hne Hk]. exists k. by split. }
  split; [|split].
  - intros desktop w. apply elem_of_getVisibleWindows.
  - exact Hclose.
  - intros Hkeyed id desktop w Hin.
    destruct (Hclose id desktop w Hin) as (k & Hne & Hk).
    rewrite (Hkeyed k w Hk). congruence.
Qed.

Lemma getVisibleWindows_exact_witness :
  let ws := windows (openWindow "settings"
                       (openWindow "calculator" (view initialSystem))) in
  keyed ws /\
  (forall desktop w,
     w ∈ getVisibleWindows (closeWindowUpdater "calculator" ws) desktop ->
     WindowState.id w <> Some "calculator").
Proof.
  intros ws.
  assert (Hk : keyed ws).
  { apply (inv_keyed (openWindow "settings"
                        (openWindow "calculator" (view initialSystem)))).
    apply Inv_openWindow; [reflexivity|].
    apply Inv_openWindow; [reflexivity|]. apply Inv_initial. }
  split; [exact Hk|].
  exact (proj2 (proj2 (getVisibleWindows_exact ws)) Hk "calculator").
Defined.

(** C7, as the spec states it, fails: a resize of "calculator" to
    (-5, 600) stores the width -5; nothing clamps it. *)
Lemma negative_size_is_stored_unclamped :
  let st := openWindow "calculator" (view initialSystem) in
  let patch :=
    WindowState.mk None None (Some {| width := -5; height := 600 |})
      None None None None None None None in
  (exists w, windows (updateWindowState "calculator" patch st) !! "calculator"
             = Some w /\
     WindowState.size w = Some {| width := -5; height := 600 |}) /\
  ~ storedSizeNonNegative "calculator"
      (updateWindowState "calculator" patch st).
Proof.
  intros st patch.
  assert (Hl : exists w,
    windows (updateWindowState "calculator" patch st) !! "calculator" = Some w /\
    WindowState.size w = Some {| width := -5; height := 600 |}).
  { eexists. split; [vm_compute; reflexivity|reflexivity]. }
  split; [exact Hl|].
  destruct Hl as (w & Hw & Hs).
  intros (w2 & s & Hw2 & Hs2 & Hwidth & _).
  rewrite Hw in Hw2. inversion Hw2; subst w2.
  rewrite Hs in Hs2. inversion Hs2; subst s. simpl in Hwidth. lia.
Qed.

(** C7, amended.  A geometry update is never rejected, and the size it
    carries, negative components included, is stored as given: after
    `updateWindowState(id, updates)` the record under `id` has exactly the
    size of `updates`, and the other records are untouched. *)
Theorem updateWindowState_stores_size_as_given
    (id : string) (updates : WindowState.t) (st : DesktopState) (s : Size) :
  WindowState.size updates = Some s ->
  (exists w, windows (updateWindowState id updates st) !! id = Some w /\
     WindowState.size w = Some s) /\
  (forall j, id <> j ->
     windows (updateWindowState id updates st) !! j = windows st !! j).
Proof.
  intros Hs. split.
  - eexists. split; [apply lookup_insert_eq|]. simpl. by rewrite Hs.
  - intros j Hne. by apply updateWindowStateUpdater_other.
Qed.

Lemma updateWindowState_stores_size_as_given_witness :
  let st := openWindow "calculator" (view initialSystem) in
  let patch :=
    WindowState.mk None None (Some {| width := -5; height := -7 |})
      None None None None None None None in
  WindowState.size patch = Some {| width := -5; height := -7 |} /\
  exists w, windows (updateWindowState "calculator" patch st) !! "calculator"
            = Some w /\
    WindowState.size w = Some {| width := -5; height := -7 |}.
Proof.
  intros st patch. split; [reflexivity|].
  apply (updateWindowState_stores_size_as_given "calculator" patch st).
  reflexivity.
Defined.

(** C8.  `setActiveDesktop` with an id that no desktop of the registry has
    changes nothing and notifies nobody; `switchDesktop` with such an id
    leaves the whole system, the active desktop id of the service and of
    the view included, as it was. *)
Theorem switchDesktop_unknown_is_noop (id : string) (sys : System) :
  (forall d, d ∈ VirtualDesktopService.desktops (virtualDesktops sys) ->
     VirtualDesktop.id d <> id) ->
  VirtualDesktopService.setActiveDesktop id (virtualDesktops sys)
    = (virtualDesktops sys, false) /\
  switchDesktop id sys = sys /\
  VirtualDesktopService.getActiveDesktopId
    (virtualDesktops (switchDesktop id sys))
    = VirtualDesktopService.getActiveDesktopId (virtualDesktops sys) /\
  activeDesktopId (view (switchDesktop id sys)) = activeDesktopId (view sys).
Proof.
  intros Hunknown.
  assert (Hk : VirtualDesktopService.knows (virtualDesktops sys) id = false).
  { unfold VirtualDesktopService.knows.
    apply not_true_is_false. intros He.
    apply existsb_exists in He as (d & Hin & Hd).
    apply bool_decide_eq_true in Hd.
    apply list_elem_of_In in Hin. by apply (Hunknown d). }
  assert (Hset : VirtualDesktopService.setActiveDesktop id (virtualDesktops sys)
                 = (virtualDesktops sys, false)).
  { unfold VirtualDesktopService.setActiveDesktop. by rewrite Hk. }
  assert (Hsw : switchDesktop id sys = sys).
  { unfold switchDesktop. rewrite Hset. by destruct sys. }
  split; [exact Hset|]. split; [exact Hsw|]. by rewrite Hsw.
Qed.

Lemma switchDesktop_unknown_is_noop_witness :
  (forall d, d ∈ VirtualDesktopService.desktops (virtualDesktops initialSystem) ->
     VirtualDesktop.id d <> "desktop-3") /\
  switchDesktop "desktop-3" initialSystem = initialSystem.
Proof.
  assert (Hunknown : forall d,
    d ∈ VirtualDesktopService.desktops (virtualDesktops initialSystem) ->
    VirtualDesktop.id d <> "desktop-3").
  { intros d Hin. simpl in Hin. unfold VirtualDesktopService.initialDesktops in Hin.
    apply elem_of_cons in Hin as [->|Hin]; [discriminate|].
    apply elem_of_cons in Hin as [->|Hin]; [discriminate|].
    by apply not_elem_of_nil in Hin. }
  split; [exact Hunknown|].
  exact (proj1 (proj2 (switchDesktop_unknown_is_noop "desktop-3" initialSystem
                         Hunknown))).
Defined.

(** C9.  After any sequence of `openWindow` calls on the empty store, the
    store holds as many records as there are distinct ids in the
    sequence. *)
Theorem openWindow_count_distinct (svc : VirtualDesktopService.t)
    (ids : list string) :
  size (windows (foldl (fun st f => openWindow f st) (initialView svc) ids))
  = size (list_to_set ids : gset string).
Proof.
  rewrite <- size_dom, dom_openWindows. simpl.
  by rewrite dom_empty_L, (right_id_L ∅ (∪)).
Qed.

(** C10.  `openWindow` on an id the store holds keeps the position and the
    size of the record, and every other property but isMinimized, zIndex
    and desktopId; it leaves the other records and the active desktop
    alone, makes the id active and advances the z-index counter. *)
Theorem openWindow_existing_keeps_geometry
    (st : DesktopState) (f : string) (w : WindowState.t) :
  windows st !! f = Some w ->
  exists w',
    windows (openWindow f st) !! f = Some w' /\
    WindowState.position w' = WindowState.position w /\
    WindowState.size w' = WindowState.size w /\
    WindowState.id w' = WindowState.id w /\
    WindowState.isMaximized w' = WindowState.isMaximized w /\
    WindowState.isResizing w' = WindowState.isResizing w /\
    WindowState.isDragging w' = WindowState.isDragging w /\
    WindowState.opacity w' = WindowState.opacity w /\
    WindowState.isMinimized w' = Some false /\
    WindowState.zIndex w' = Some (nextZIndex st + 1) /\
    WindowState.desktopId w' = Some (activeDesktopId st) /\
    (forall j, f <> j -> windows (openWindow f st) !! j = windows st !! j) /\
    size (windows (openWindow f st)) = size (windows st) /\
    activeId (openWindow f st) = Some f /\
    nextZIndex (openWindow f st) = nextZIndex st + 1 /\
    activeDesktopId (openWindow f st) = activeDesktopId st.
Proof.
  intros Hf. eexists. split; [by apply openWindowUpdater_existing|].
  repeat (split; [done|]).
  split; [intros j Hne; by apply openWindow_other|].
  split; [|done].
  simpl. unfold openWindowUpdater. rewrite (plainGet_own _ f w Hf).
  by apply map_size_insert_Some.
Qed.

Lemma openWindow_existing_keeps_geometry_witness :
  let st :=
    updateWindowState "calculator"
      (WindowState.mk None (Some {| x := 300; y := 120 |}) None None None None
         None None None None)
      (onMinimize "calculator" (openWindow "calculator" (view initialSystem))) in
  exists w w',
    windows st !! "calculator" = Some w /\
    windows (openWindow "calculator" st) !! "calculator" = Some w' /\
    WindowState.position w' = Some {| x := 300; y := 120 |} /\
    WindowState.size w' = Some {| width := 800; height := 600 |}.
Proof.
  intros st.
  destruct (openWindow_existing_keeps_geometry st "calculator" _
              ltac:(vm_compute; reflexivity))
    as (w' & Hl & Hp & Hs & _).
  eexists _, w'. split; [vm_compute; reflexivity|].
  split; [exact Hl|]. split; [rewrite Hp; reflexivity|rewrite Hs; reflexivity].
Defined.

(* ===================================================================== *)
(* Further properties of the window store                                  *)
(* ===================================================================== *)

Lemma elem_of_getMinimizedWindows (ws : gmap string WindowState.t) w :
  w ∈ getMinimizedWindows ws <->
  exists k, ws !! k = Some w /\ truthy (WindowState.isMinimized w) = true.
Proof.
  unfold getMinimizedWindows.
  rewrite list_elem_of_In, filter_In, <- list_elem_of_In, elem_of_values.
  split.
  - intros [[k Hk] Hm]. by exists k.
  - intros (k & Hk & Hm). split; [by exists k|done].
Qed.

Lemma elem_of_getOpenWindows (ws : gmap string WindowState.t) desktop w :
  w ∈ getOpenWindows ws desktop <->
  exists k, ws !! k = Some w /\ WindowState.desktopId w = Some desktop.
Proof.
  unfold getOpenWindows.
  rewrite list_elem_of_In, filter_In, <- list_elem_of_In, elem_of_values,
    bool_decide_eq_true.
  split.
  - intros [[k Hk] Hd]. by exists k.
  - intros (k & Hk & Hd). split; [by exists k|done].
Qed.

(** The rendered windows after a minimize: the ones rendered before that
    sit under another key. *)
Lemma onMinimize_hides_only_that_window_aux
    (st : DesktopState) (id : string) (w : WindowState.t) :
  windows st !! id = Some w ->
  windows (onMinimize id st) !! id
    = Some (WindowState.withIsMinimized true w) /\
  (forall desktop v,
     v ∈ getVisibleWindows (windows (onMinimize id st)) desktop <->
     exists k, k <> id /\ windows st !! k = Some v /\
       WindowState.desktopId v = Some desktop /\
       truthy (WindowState.isMinimized v) = false).
Proof.
  intros Hid.
  assert (Hl : windows (onMinimize id st) !! id
               = Some (WindowState.withIsMinimized true w)).
  { simpl. unfold onMinimizeUpdater. rewrite Hid. apply lookup_insert_eq. }
  split; [exact Hl|].
  intros desktop v. rewrite elem_of_getVisibleWindows. split.
  - intros (k & Hk & Hd & Hm). destruct (decide (id = k)) as [<-|Hne].
    + rewrite Hl in Hk. inversion Hk; subst v. discriminate Hm.
    + exists k. split; [done|]. split; [|done].
      simpl in Hk. by rewrite onMinimizeUpdater_other in Hk.
  - intros (k & Hne & Hk & Hd & Hm). exists k. split; [|done].
    simpl. by rewrite onMinimizeUpdater_other.
Qed.

(** X1.  Minimizing a window of the store takes it, and nothing else, out
    of the rendered windows of every desktop, lists it among the minimized
    windows, and keeps it among the taskbar buttons of its desktop. *)
Theorem onMinimize_hides_only_that_window
    (st : DesktopState) (id : string) (w : WindowState.t) :
  windows st !! id = Some w ->
  (exists w',
     windows (onMinimize id st) !! id = Some w' /\
     w' = WindowState.withIsMinimized true w /\
     w' ∈ getMinimizedWindows (windows (onMinimize id st)) /\
     (forall desktop, WindowState.desktopId w = Some desktop ->
        w' ∈ getOpenWindows (windows (onMinimize id st)) desktop)) /\
  (forall desktop v,
     v ∈ getVisibleWindows (windows (onMinimize id st)) desktop <->
     exists k, k <> id /\ windows st !! k = Some v /\
       WindowState.desktopId v = Some desktop /\
       truthy (WindowState.isMinimized v) = false).
Proof.
  intros Hid.
  assert (Hl : windows (onMinimize id st) !! id
               = Some (WindowState.withIsMinimized true w)).
  { simpl. unfold onMinimizeUpdater. rewrite Hid. apply lookup_insert_eq. }
  split.
  - eexists. split; [exact Hl|]. split; [done|]. split.
    + apply elem_of_getMinimizedWindows. by exists id.
    + intros desktop Hd. apply elem_of_getOpenWindows. by exists id.
  - intros desktop v. rewrite elem_of_getVisibleWindows. split.
    + intros (k & Hk & Hd & Hm). destruct (decide (id = k)) as [<-|Hne].
      * rewrite Hl in Hk. inversion Hk; subst v. discriminate Hm.
      * exists k. split; [done|]. split; [|done].
        simpl in Hk. by rewrite onMinimizeUpdater_other in Hk.
    + intros (k & Hne & Hk & Hd & Hm). exists k. split; [|done].
      simpl. by rewrite onMinimizeUpdater_other.
Qed.

Lemma onMinimize_hides_only_that_window_witness :
  let st := openWindow "settings"
              (openWindow "calculator" (view initialSystem)) in
  exists w,
    windows st !! "settings" = Some w /\
    forall desktop v,
      v ∈ getVisibleWindows (windows (onMinimize "settings" st)) desktop <->
      exists k, k <> "settings" /\ windows st !! k = Some v /\
        WindowState.desktopId v = Some desktop /\
        truthy (WindowState.isMinimized v) = false.
Proof.
  intros st. eexists. split; [vm_compute; reflexivity|].
  exact (proj2 (onMinimize_hides_only_that_window st "settings" _
                  ltac:(vm_compute; reflexivity))).
Defined.

(** X3.  Minimize followed by a restore from the taskbar brings the window
    back as it was: same position, size, maximized flag and the other
    properties, visible again on the active desktop; only the z-index and
    the desktop pin are renewed, and no other record changes. *)
Theorem minimize_then_restore
    (st : DesktopState) (id : string) (w : WindowState.t) :
  windows st !! id = Some w ->
  windows (openWindow id (onMinimize id st)) !! id =
    Some (WindowState.withDesktopId (activeDesktopId st)
            (WindowState.withZIndex (nextZIndex st + 1)
               (WindowState.withIsMinimized false w))) /\
  (WindowState.isMinimized w = Some false ->
   WindowState.desktopId w = Some (activeDesktopId st) ->
   windows (openWindow id (onMinimize id st)) =
   windows (onFocus id st)) /\
  (forall j, id <> j ->
     windows (openWindow id (onMinimize id st)) !! j = windows st !! j).
Proof.
  intros Hid.
  assert (Hm : windows (onMinimize id st) !! id
               = Some (WindowState.withIsMinimized true w)).
  { simpl. unfold onMinimizeUpdater. rewrite Hid. apply lookup_insert_eq. }
  assert (Hfst : windows (openWindow id (onMinimize id st)) !! id =
    Some (WindowState.withDesktopId (activeDesktopId st)
            (WindowState.withZIndex (nextZIndex st + 1)
               (WindowState.withIsMinimized false w)))).
  { simpl. erewrite openWindowUpdater_existing; [|exact Hm]. done. }
  assert (Hother : forall j, id <> j ->
     windows (openWindow id (onMinimize id st)) !! j = windows st !! j).
  { intros j Hne. rewrite openWindow_other by done.
    simpl. by apply onMinimizeUpdater_other. }
  split; [exact Hfst|]. split; [|exact Hother].
  intros Hmin Hdesk. apply map_eq. intros j.
  destruct (decide (id = j)) as [<-|Hne].
  - rewrite Hfst. simpl. unfold onFocusUpdater. rewrite Hid, lookup_insert_eq.
    simpl. f_equal. destruct w; simpl in *. by subst.
  - rewrite Hother by done. simpl. by rewrite onFocusUpdater_other.
Qed.

Lemma minimize_then_restore_witness :
  let st := openWindow "calculator" (view initialSystem) in
  exists w,
    windows st !! "calculator" = Some w /\
    windows (openWindow "calculator" (onMinimize "calculator" st))
      !! "calculator" =
      Some (WindowState.withDesktopId (activeDesktopId st)
              (WindowState.withZIndex (nextZIndex st + 1)
                 (WindowState.withIsMinimized false w))).
Proof.
  intros st. eexists. split; [vm_compute; reflexivity|].
  exact (proj1 (minimize_then_restore st "calculator" _
                  ltac:(vm_compute; reflexivity))).
Defined.

(** X4.  What the handlers do with an id the store does not hold:
    `closeWindow` changes nothing; `onMinimize` and `onFocus` each insert
    a record that has only the property they set (isMinimized, or zIndex),
    and `onFocus` makes the id active; `onMaximize` fails on the property
    read of `undefined`, except for a name every object inherits, where
    the read succeeds and it inserts a maximized record that has only
    isMaximized, size and position. *)
Theorem handlers_on_unknown_id
    (id : string) (st : DesktopState) (inner : Viewport) :
  windows st !! id = None ->
  closeWindow id st = st /\
  (inheritsProperty id = false -> onMaximize inner id st = None) /\
  (inheritsProperty id = true ->
   windows <$> onMaximize inner id st =
     Some (<[id :=
              WindowState.withPosition {| x := 0; y := 0 |}
                (WindowState.withSize
                   {| width := innerWidth inner;
                      height := innerHeight inner - 60 |}
                   (WindowState.withIsMaximized true WindowState.empty))]>
             (windows st))) /\
  windows (onMinimize id st) !! id
    = Some (WindowState.withIsMinimized true WindowState.empty) /\
  size (windows (onMinimize id st)) = S (size (windows st)) /\
  windows (onFocus id st) !! id
    = Some (WindowState.withZIndex (nextZIndex st + 1) WindowState.empty) /\
  size (windows (onFocus id st)) = S (size (windows st)) /\
  activeId (onFocus id st) = Some id.
Proof.
  intros Hid. split; [|split; [|split; [|split; [|split; [|split; [|split]]]]]].
  - unfold closeWindow, closeWindowUpdater. rewrite delete_id by done.
    by destruct st.
  - intros Hown. unfold onMaximize, onMaximizeUpdater.
    by rewrite plainGet_undefined.
  - intros Hinh. unfold onMaximize, onMaximizeUpdater.
    by rewrite plainGet_inherited.
  - simpl. unfold onMinimizeUpdater. rewrite Hid. apply lookup_insert_eq.
  - simpl. unfold onMinimizeUpdater. by apply map_size_insert_None.
  - simpl. unfold onFocusUpdater. rewrite Hid. apply lookup_insert_eq.
  - simpl. unfold onFocusUpdater. by apply map_size_insert_None.
  - done.
Qed.

Lemma handlers_on_unknown_id_witness :
  let st := openWindow "calculator" (view initialSystem) in
  windows st !! "settings" = None /\
  inheritsProperty "settings" = false /\
  closeWindow "settings" st = st /\
  onMaximize {| innerWidth := 1920; innerHeight := 1080 |} "settings" st = None.
Proof.
  intros st. split; [vm_compute; reflexivity|]. split; [reflexivity|].
  destruct (handlers_on_unknown_id "settings" st
              {| innerWidth := 1920; innerHeight := 1080 |}
              ltac:(vm_compute; reflexivity)) as (Hc & Hm & _).
  split; [exact Hc|]. apply Hm. reflexivity.
Defined.

(** X5.  Closing a window forgets it: the store loses exactly that record,
    and opening the same id again, when it is not a name every object
    inherits, creates a fresh one, at the default position for the windows
    that are left, 800 by 600, not maximized, whatever the geometry of the
    closed window was. *)
Theorem close_then_reopen_is_fresh
    (st : DesktopState) (f : string) (w : WindowState.t) :
  windows st !! f = Some w ->
  inheritsProperty f = false ->
  windows (closeWindow f st) !! f = None /\
  size (windows st) = S (size (windows (closeWindow f st))) /\
  (forall j, f <> j -> windows (closeWindow f st) !! j = windows st !! j) /\
  windows (openWindow f (closeWindow f st)) !! f =
    Some (WindowState.mk (Some f)
            (Some {| x := 50 + (Z.of_nat (size (windows st)) - 1) * 20;
                     y := 50 + (Z.of_nat (size (windows st)) - 1) * 20 |})
            (Some {| width := 800; height := 600 |})
            (Some (nextZIndex st + 1)) (Some false) (Some false) (Some false)
            (Some false) (Some (activeDesktopId st)) (Some 1)).
Proof.
  intros Hf Hown.
  assert (Hnone : windows (closeWindow f st) !! f = None).
  { simpl. apply lookup_delete_eq. }
  assert (Hsz : size (windows st) = S (size (windows (closeWindow f st)))).
  { simpl. unfold closeWindowUpdater.
    rewrite <- (insert_delete_id (windows st) f w Hf) at 1.
    apply map_size_insert_None, lookup_delete_eq. }
  split; [exact Hnone|]. split; [exact Hsz|]. split.
  - intros j Hne. simpl. by apply lookup_delete_ne.
  - simpl. rewrite openWindowUpdater_fresh by done.
    simpl in Hsz. rewrite Hsz. repeat f_equal; lia.
Qed.

Lemma close_then_reopen_is_fresh_witness :
  let st :=
    updateWindowState "calculator" (movePatch {| x := 300; y := 120 |})
      (openWindow "calculator" (view initialSystem)) in
  exists w w',
    windows st !! "calculator" = Some w /\
    WindowState.position w = Some {| x := 300; y := 120 |} /\
    windows (openWindow "calculator" (closeWindow "calculator" st))
      !! "calculator" = Some w' /\
    WindowState.position w' = Some {| x := 50; y := 50 |}.
Proof.
  intros st.
  destruct (close_then_reopen_is_fresh st "calculator" _
              ltac:(vm_compute; reflexivity) ltac:(reflexivity))
    as (_ & _ & _ & Hre).
  eexists _, _. split; [vm_compute; reflexivity|]. split; [reflexivity|].
  split; [exact Hre|]. vm_compute. reflexivity.
Defined.

(* ===================================================================== *)
(* The z-index counter and the desktop pins along a trace                  *)
(* ===================================================================== *)

(** A property kept by every event holds along every trace. *)
Lemma run_invariant (P : System -> Prop) :
  (forall ev s s', dispatch ev s = Some s' -> P s -> P s') ->
  forall evs s s', run evs s = Some s' -> P s -> P s'.
Proof.
  intros Hstep. induction evs as [|ev rest IH]; simpl; intros s s' Hr HP.
  - by inversion Hr; subst.
  - destruct (dispatch ev s) as [s1|] eqn:Hd; [|done].
    eapply IH; [exact Hr|]. by eapply Hstep.
Qed.

(** What one event does to the store: an activation writes one record with
    the next z-index; minimize and maximize rewrite one record keeping its
    z-index and its desktop; close deletes one key; a desktop switch keeps
    the store. *)
Lemma dispatch_store ev sys sys' :
  dispatch ev sys = Some sys' ->
  (virtualDesktops sys' = virtualDesktops sys /\
   activeDesktopId (view sys') = activeDesktopId (view sys) /\
   ((exists k w',
       isActivation ev = true /\
       windows (view sys') = <[k := w']> (windows (view sys)) /\
       WindowState.zIndex w' = Some (nextZIndex (view sys) + 1) /\
       nextZIndex (view sys') = nextZIndex (view sys) + 1 /\
       (WindowState.desktopId w' = Some (activeDesktopId (view sys)) \/
        exists w, windows (view sys) !! k = Some w /\
          WindowState.desktopId w' = WindowState.desktopId w)) \/
    (exists k w w',
       isActivation ev = false /\
       windows (view sys) !! k = Some w /\
       windows (view sys') = <[k := w']> (windows (view sys)) /\
       WindowState.zIndex w' = WindowState.zIndex w /\
       WindowState.desktopId w' = WindowState.desktopId w /\
       nextZIndex (view sys') = nextZIndex (view sys)) \/
    (exists k,
       isActivation ev = false /\
       windows (view sys') = delete k (windows (view sys)) /\
       nextZIndex (view sys') = nextZIndex (view sys)))) \/
  (exists id, ev = SwitchDesktop id /\ sys' = switchDesktop id sys).
Proof.
  destruct ev as [f|id|id|id inner|id|id]; simpl; intros Hd.
  - inversion Hd; subst; clear Hd. left. split; [done|]. split; [done|]. left.
    simpl. unfold openWindowUpdater.
    destruct (plainGet (windows (view sys)) f) as [w|].
    + eexists f, _. split; [done|]. split; [reflexivity|].
      split; [done|]. split; [done|]. by left.
    + eexists f, _. split; [done|]. split; [reflexivity|].
      split; [done|]. split; [done|]. by left.
  - case_decide; [|done]. inversion Hd; subst; clear Hd.
    left. split; [done|]. split; [done|]. right. right. by exists id.
  - case_decide as Hs; [|done]. inversion Hd; subst; clear Hd.
    destruct Hs as [w Hw].
    left. split; [done|]. split; [done|]. right. left.
    exists id, w, (WindowState.withIsMinimized true w).
    split; [done|]. split; [done|]. split; [|done].
    simpl. unfold onMinimizeUpdater. by rewrite Hw.
  - case_decide as Hs; [|done]. destruct Hs as [w Hw].
    destruct (onMaximize_present inner id (view sys) w Hw)
      as (w' & Heq & _ & Hz & Hdesk).
    rewrite Heq in Hd. inversion Hd; subst; clear Hd.
    left. split; [done|]. split; [done|]. right. left.
    by exists id, w, w'.
  - case_decide as Hs; [|done]. inversion Hd; subst; clear Hd.
    destruct Hs as [w Hw].
    left. split; [done|]. split; [done|]. left.
    exists id, (WindowState.withZIndex (nextZIndex (view sys) + 1) w).
    split; [done|]. split.
    { simpl. unfold onFocusUpdater. by rewrite Hw. }
    split; [done|]. split; [done|]. right. by exists w.
  - inversion Hd; subst. right. by exists id.
Qed.

Lemma activations_cons ev evs :
  Z.of_nat (activations (ev :: evs)) =
  (if isActivation ev then 1 else 0) + Z.of_nat (activations evs).
Proof.
  unfold activations. simpl. destruct (isActivation ev); simpl; lia.
Qed.

Lemma counter_dispatch ev sys sys' :
  dispatch ev sys = Some sys' ->
  nextZIndex (view sys') =
    nextZIndex (view sys) + (if isActivation ev then 1 else 0) /\
  (Z_INDEX_BASE <= nextZIndex (view sys) ->
   zInRange (windows (view sys)) (nextZIndex (view sys)) ->
   zInRange (windows (view sys')) (nextZIndex (view sys'))).
Proof.
  intros Hd. destruct (dispatch_store ev sys sys' Hd)
    as [(_ & _ & [Hact|[Hrep|Hdel]])|(id & -> & ->)].
  - destruct Hact as (k & w' & -> & Hw & Hz & Hn & _). split; [done|].
    intros Hbase Hr j w Hj. rewrite Hw, lookup_insert in Hj. rewrite Hn.
    case_decide; simplify_eq.
    + exists (nextZIndex (view sys) + 1). split; [done|lia].
    + destruct (Hr j w Hj) as (z & Hzj & Hrange). exists z. split; [done|lia].
  - destruct Hrep as (k & w & w' & -> & Hk & Hw & Hz & _ & Hn).
    split; [lia|].
    intros Hbase Hr j wj Hj. rewrite Hw, lookup_insert in Hj. rewrite Hn.
    case_decide; simplify_eq.
    + rewrite Hz. by eapply Hr.
    + by eapply Hr.
  - destruct Hdel as (k & -> & Hw & Hn). split; [lia|].
    intros Hbase Hr j wj Hj. rewrite Hw in Hj. rewrite Hn.
    apply lookup_delete_Some in Hj as [_ Hj]. by eapply Hr.
  - destruct (switchDesktop_view id sys) as (Hw & _ & Hn). simpl.
    split; [lia|]. intros _ Hr. by rewrite Hw, Hn.
Qed.

Lemma counter_run evs : forall sys sys',
  run evs sys = Some sys' ->
  nextZIndex (view sys') = nextZIndex (view sys) + Z.of_nat (activations evs) /\
  (Z_INDEX_BASE <= nextZIndex (view sys) ->
   zInRange (windows (view sys)) (nextZIndex (view sys)) ->
   zInRange (windows (view sys')) (nextZIndex (view sys'))).
Proof.
  induction evs as [|ev rest IH]; intros sys sys' Hr.
  - simpl in Hr. inversion Hr; subst. unfold activations. simpl.
    split; [lia|done].
  - simpl in Hr. destruct (dispatch ev sys) as [s1|] eqn:Hd; [|done].
    destruct (counter_dispatch ev sys s1 Hd) as [Hn1 Hr1].
    destruct (IH s1 sys' Hr) as [Hn2 Hr2].
    rewrite activations_cons. split; [lia|].
    intros Hbase Hrange. apply Hr2; [|by apply Hr1].
    rewrite Hn1. destruct (isActivation ev); lia.
Qed.

(** X6.  Along every trace from the first mount the z-index counter is
    `Z_INDEX_BASE` plus the number of `openWindow` and `onFocus` events
    handled so far (it never goes down and nothing else moves it), and
    every z-index in the store lies above `Z_INDEX_BASE` and at most at the
    counter. *)
Theorem nextZIndex_counts_activations (evs : list Event) (sys : System) :
  run evs initialSystem = Some sys ->
  nextZIndex (view sys) = Z_INDEX_BASE + Z.of_nat (activations evs) /\
  zInRange (windows (view sys)) (nextZIndex (view sys)).
Proof.
  intros Hr. destruct (counter_run evs initialSystem sys Hr) as [Hn Hrange].
  split; [exact Hn|]. apply Hrange; [simpl; lia|].
  intros k w Hk. simpl in Hk. by rewrite lookup_empty in Hk.
Qed.

Lemma nextZIndex_counts_activations_witness :
  exists sys,
    run [OpenWindow "calculator"; Minimize "calculator";
         OpenWindow "calculator"; Focus "calculator";
         CloseWindow "calculator"; SwitchDesktop "desktop-2"]
        initialSystem = Some sys /\
    nextZIndex (view sys) = 13.
Proof.
  eexists. split; [vm_compute; reflexivity|].
  exact (proj1 (nextZIndex_counts_activations
                  [OpenWindow "calculator"; Minimize "calculator";
                   OpenWindow "calculator"; Focus "calculator";
                   CloseWindow "calculator"; SwitchDesktop "desktop-2"]
                  _ ltac:(vm_compute; reflexivity))).
Defined.

Lemma knows_initialDesktops svc d :
  VirtualDesktopService.desktops svc = VirtualDesktopService.initialDesktops ->
  VirtualDesktopService.knows svc d = true <->
  d = "desktop-1" \/ d = "desktop-2".
Proof.
  intros Hreg. unfold VirtualDesktopService.knows. rewrite Hreg. simpl.
  rewrite !orb_true_iff, !bool_decide_eq_true. split.
  - intros [H|[H|H]]; [by left|by right|done].
  - intros [->| ->]; [by left|right; by left].
Qed.

(** `setActiveDesktop` case by case: it moves to a known, different
    desktop and notifies; otherwise it does nothing and stays silent. *)
Lemma setActiveDesktop_cases id svc :
  (VirtualDesktopService.knows svc id = true /\
   VirtualDesktopService.activeDesktopId svc <> id /\
   VirtualDesktopService.setActiveDesktop id svc =
     (VirtualDesktopService.mk (VirtualDesktopService.desktops svc) id, true)) \/
  ((VirtualDesktopService.knows svc id = false \/
    VirtualDesktopService.activeDesktopId svc = id) /\
   VirtualDesktopService.setActiveDesktop id svc = (svc, false)).
Proof.
  unfold VirtualDesktopService.setActiveDesktop.
  destruct (VirtualDesktopService.knows svc id) eqn:Hk;
    destruct (decide (VirtualDesktopService.activeDesktopId svc = id)) as [Ha|Ha].
  - rewrite bool_decide_eq_true_2 by done. right. auto.
  - rewrite bool_decide_eq_false_2 by done. left. auto.
  - right. auto.
  - right. auto.
Qed.

Lemma DesktopsInv_initial : DesktopsInv initialSystem.
Proof.
  split; done.
Qed.

Lemma DesktopsInv_dispatch ev sys sys' :
  dispatch ev sys = Some sys' -> DesktopsInv sys -> DesktopsInv sys'.
Proof.
  intros Hd [Hreg Hmir Hact Hpin].
  destruct (dispatch_store ev sys sys' Hd)
    as [(Hsvc & Hdesk & Hcases)|(id & -> & ->)].
  - split; rewrite ?Hsvc, ?Hdesk; try done.
    intros j wj Hj.
    destruct Hcases as [Hact'|[Hrep|Hdel]].
    + destruct Hact' as (k & w' & _ & Hw & _ & _ & Hdw).
      rewrite Hw, lookup_insert in Hj. case_decide; simplify_eq.
      * destruct Hdw as [Hdw|(w & Hk & Hdw)].
        -- exists (activeDesktopId (view sys)). split; [done|].
           by rewrite Hmir.
        -- rewrite Hdw. by eapply Hpin.
      * by eapply Hpin.
    + destruct Hrep as (k & w & w' & _ & Hk & Hw & _ & Hdw & _).
      rewrite Hw, lookup_insert in Hj. case_decide; simplify_eq.
      * rewrite Hdw. by eapply Hpin.
      * by eapply Hpin.
    + destruct Hdel as (k & _ & Hw & _).
      rewrite Hw in Hj. apply lookup_delete_Some in Hj as [_ Hj].
      by eapply Hpin.
  - unfold switchDesktop.
    destruct (setActiveDesktop_cases id (virtualDesktops sys))
      as [(Hk & Hne & ->)|(_ & ->)].
    + split; simpl; try done;
        intros k w Hw; destruct (Hpin k w Hw) as (d & Hd' & Hkd); by exists d.
    + by split.
Qed.

(** X7.  Along every trace from the first mount the view shows the desktop
    the service has active, that desktop is one of the two of the
    registry, and every window of the store is pinned to one of the
    two. *)
Theorem windows_pinned_to_registry (evs : list Event) (sys : System) :
  run evs initialSystem = Some sys ->
  activeDesktopId (view sys)
    = VirtualDesktopService.getActiveDesktopId (virtualDesktops sys) /\
  (activeDesktopId (view sys) = "desktop-1" \/
   activeDesktopId (view sys) = "desktop-2") /\
  (forall k w, windows (view sys) !! k = Some w ->
     WindowState.desktopId w = Some "desktop-1" \/
     WindowState.desktopId w = Some "desktop-2").
Proof.
  intros Hr.
  assert (HI : DesktopsInv sys).
  { eapply (run_invariant DesktopsInv); [|exact Hr|apply DesktopsInv_initial].
    intros ev s s'. apply DesktopsInv_dispatch. }
  destruct HI as [Hreg Hmir Hact Hpin].
  split; [exact Hmir|]. split.
  - rewrite Hmir. by apply (knows_initialDesktops (virtualDesktops sys)).
  - intros k w Hk. destruct (Hpin k w Hk) as (d & -> & Hkd).
    apply (knows_initialDesktops (virtualDesktops sys)) in Hkd; [|done].
    destruct Hkd as [->| ->]; auto.
Qed.

Lemma windows_pinned_to_registry_witness :
  exists sys,
    run [OpenWindow "calculator"; SwitchDesktop "desktop-2";
         OpenWindow "settings"; SwitchDesktop "desktop-9";
         OpenWindow "calculator"]
        initialSystem = Some sys /\
    activeDesktopId (view sys)
      = VirtualDesktopService.getActiveDesktopId (virtualDesktops sys).
Proof.
  eexists. split; [vm_compute; reflexivity|].
  exact (proj1 (windows_pinned_to_registry
                  [OpenWindow "calculator"; SwitchDesktop "desktop-2";
                   OpenWindow "settings"; SwitchDesktop "desktop-9";
                   OpenWindow "calculator"]
                  _ ltac:(vm_compute; reflexivity))).
Defined.

(** X8.  Switching to a registered desktop shows it and keeps every window
    record; switching back to the desktop one came from restores the whole
    system, so the windows of a deactivated desktop come back unchanged. *)
Theorem switchDesktop_there_and_back
    (evs : list Event) (sys : System) (d : string) :
  run evs initialSystem = Some sys ->
  VirtualDesktopService.knows (virtualDesktops sys) d = true ->
  activeDesktopId (view (switchDesktop d sys)) = d /\
  windows (view (switchDesktop d sys)) = windows (view sys) /\
  (forall desktop,
     getVisibleWindows (windows (view (switchDesktop d sys))) desktop
     = getVisibleWindows (windows (view sys)) desktop) /\
  switchDesktop (activeDesktopId (view sys)) (switchDesktop d sys) = sys.
Proof.
  intros Hr Hk.
  assert (HI : DesktopsInv sys).
  { eapply (run_invariant DesktopsInv); [|exact Hr|apply DesktopsInv_initial].
    intros ev s s'. apply DesktopsInv_dispatch. }
  destruct HI as [Hreg Hmir Hact Hpin].
  destruct (switchDesktop_view d sys) as (Hw & _ & _).
  split; [|split; [exact Hw|split; [intros desktop; by rewrite Hw|]]].
  - unfold switchDesktop.
    destruct (setActiveDesktop_cases d (virtualDesktops sys))
      as [(_ & _ & ->)|([Hno|Hsame] & ->)]; simpl.
    + done.
    + congruence.
    + by rewrite Hmir.
  - destruct sys as [[desks act] [ws a n ad]]. simpl in *. subst ad.
    unfold switchDesktop at 2. simpl.
    destruct (setActiveDesktop_cases d (VirtualDesktopService.mk desks act))
      as [(_ & Hne & ->)|([Hno|Hsame] & ->)]; simpl in *.
    + unfold switchDesktop, VirtualDesktopService.setActiveDesktop,
        VirtualDesktopService.knows in *. simpl in *.
      rewrite Hact. rewrite bool_decide_eq_false_2 by congruence. done.
    + congruence.
    + subst d. unfold switchDesktop, VirtualDesktopService.setActiveDesktop.
      simpl. rewrite bool_decide_eq_true_2 by done.
      by rewrite andb_false_r.
Qed.

Lemma switchDesktop_there_and_back_witness :
  exists sys,
    run [OpenWindow "calculator"; OpenWindow "settings"] initialSystem
      = Some sys /\
    VirtualDesktopService.knows (virtualDesktops sys) "desktop-2" = true /\
    switchDesktop (activeDesktopId (view sys)) (switchDesktop "desktop-2" sys)
      = sys.
Proof.
  eexists. split; [vm_compute; reflexivity|]. split; [reflexivity|].
  exact (proj2 (proj2 (proj2
    (switchDesktop_there_and_back
       [OpenWindow "calculator"; OpenWindow "settings"] _ "desktop-2"
       ltac:(vm_compute; reflexivity) ltac:(reflexivity))))).
Defined.

(* ===================================================================== *)
(* Patches                                                                 *)
(* ===================================================================== *)

Lemma over_assoc {A : Type} (c b a : option A) :
  WindowState.over c (WindowState.over b a)
  = WindowState.over (WindowState.over c b) a.
Proof. by destruct c, b. Qed.

Lemma spread_assoc (a u1 u2 : WindowState.t) :
  WindowState.spread (WindowState.spread a u1) u2
  = WindowState.spread a (WindowState.spread u1 u2).
Proof.
  unfold WindowState.spread. simpl. by rewrite !over_assoc.
Qed.

Lemma spread_empty_r (w : WindowState.t) :
  WindowState.spread w WindowState.empty = w.
Proof. by destruct w. Qed.

(** X9.  Two patches applied one after the other to the same id amount to
    the single patch `{...u1, ...u2}`: the later one wins property by
    property, whether or not the store held the id. *)
Theorem updateWindowState_twice
    (id : string) (u1 u2 : WindowState.t) (st : DesktopState) :
  updateWindowState id u2 (updateWindowState id u1 st)
  = updateWindowState id (WindowState.spread u1 u2) st.
Proof.
  unfold updateWindowState, updateWindowStateUpdater. simpl.
  rewrite lookup_insert_eq, insert_insert_eq. simpl.
  by rewrite spread_assoc.
Qed.

(** X10.  Patches to different ids commute, and the empty patch leaves a
    store that holds the id exactly as it was. *)
Theorem updateWindowState_independent
    (i j : string) (ui uj : WindowState.t) (st : DesktopState) :
  (i <> j ->
   updateWindowState i ui (updateWindowState j uj st)
   = updateWindowState j uj (updateWindowState i ui st)) /\
  (is_Some (windows st !! i) ->
   updateWindowState i WindowState.empty st = st).
Proof.
  split.
  - intros Hne. unfold updateWindowState, updateWindowStateUpdater. simpl.
    rewrite !lookup_insert_ne by done. f_equal.
    by apply insert_insert_ne.
  - intros [w Hw]. unfold updateWindowState, updateWindowStateUpdater.
    rewrite Hw. simpl. rewrite spread_empty_r, insert_id by done.
    by destruct st.
Qed.

Lemma updateWindowState_independent_witness :
  let st := openWindow "settings"
              (openWindow "calculator" (view initialSystem)) in
  "calculator" <> "settings" /\
  updateWindowState "calculator" (movePatch {| x := 10; y := 20 |})
    (updateWindowState "settings" releasePatch st)
  = updateWindowState "settings" releasePatch
      (updateWindowState "calculator" (movePatch {| x := 10; y := 20 |}) st).
Proof.
  intros st. split; [discriminate|].
  apply (proj1 (updateWindowState_independent "calculator" "settings"
                  (movePatch {| x := 10; y := 20 |}) releasePatch st)).
  discriminate.
Defined.

(** A patch that carries neither `id` nor `zIndex`, applied to an id of
    the store, keeps the stacking invariant. *)
Lemma Inv_updateWindowState id u st :
  is_Some (windows st !! id) ->
  WindowState.id u = None -> WindowState.zIndex u = None ->
  Inv st -> Inv (updateWindowState id u st).
Proof.
  intros [w Hw] Hid Hz HI.
  unfold updateWindowState, updateWindowStateUpdater. rewrite Hw. simpl.
  eapply Inv_replace; [exact Hw| | |exact HI]; simpl.
  - by rewrite Hid.
  - by rewrite Hz.
Qed.

(* ===================================================================== *)
(* The drag controller                                                     *)
(* ===================================================================== *)

Lemma spread_movePatch w p :
  WindowState.spread w (movePatch p) =
  WindowState.mk (WindowState.id w) (Some p) (WindowState.size w)
    (WindowState.zIndex w) (WindowState.isMinimized w)
    (WindowState.isMaximized w) (WindowState.isResizing w) (Some true)
    (WindowState.desktopId w) (WindowState.opacity w).
Proof. done. Qed.

Lemma spread_releasePatch w :
  WindowState.spread w releasePatch = dropped None w.
Proof. done. Qed.

(** X11.  A drag keeps the grab point under the pointer: after a mouse-down
    at `c` on the header of a window at `p`, a move to `m` puts the window
    at `p + (m - c)`, flags it as dragging, gives it the z-index of the
    focus, keeps its size and its other properties, and leaves every other
    window untouched. *)
Theorem drag_follows_pointer
    (id : string) (st : DesktopState) (win : Window.t)
    (w : WindowState.t) (p c m : Point) :
  windows st !! id = Some w ->
  WindowState.position w = Some p ->
  exists st1 win1,
    handleMouseDown id InHeader c st win = Some (st1, win1) /\
    Window.isDragging win1 = true /\
    windows (handleMouseMove id m st1 win1) !! id =
      Some (WindowState.mk (WindowState.id w)
              (Some {| x := x p + (x m - x c); y := y p + (y m - y c) |})
              (WindowState.size w) (Some (nextZIndex st + 1))
              (WindowState.isMinimized w) (WindowState.isMaximized w)
              (WindowState.isResizing w) (Some true)
              (WindowState.desktopId w) (WindowState.opacity w)) /\
    (forall j, id <> j ->
       windows (handleMouseMove id m st1 win1) !! j = windows st !! j).
Proof.
  intros Hw Hp. unfold handleMouseDown. rewrite Hw, Hp.
  eexists _, _. split; [reflexivity|]. split; [done|].
  unfold handleMouseMove. simpl. split.
  - unfold updateWindowStateUpdater, onFocusUpdater.
    rewrite lookup_insert_eq, lookup_insert_eq, Hw. simpl.
    rewrite spread_movePatch. simpl. do 3 f_equal. f_equal; lia.
  - intros j Hne. rewrite updateWindowStateUpdater_other by done.
    by rewrite onFocusUpdater_other.
Qed.

Lemma drag_follows_pointer_witness :
  let st := openWindow "calculator" (view initialSystem) in
  exists w st1 win1,
    windows st !! "calculator" = Some w /\
    WindowState.position w = Some {| x := 50; y := 50 |} /\
    handleMouseDown "calculator" InHeader {| x := 60; y := 55 |} st
      Window.initial = Some (st1, win1) /\
    exists w',
      windows (handleMouseMove "calculator" {| x := 200; y := 300 |} st1 win1)
        !! "calculator" = Some w' /\
      WindowState.position w' = Some {| x := 190; y := 295 |}.
Proof.
  intros st.
  destruct (drag_follows_pointer "calculator" st Window.initial _
              {| x := 50; y := 50 |} {| x := 60; y := 55 |}
              {| x := 200; y := 300 |}
              ltac:(vm_compute; reflexivity) ltac:(reflexivity))
    as (st1 & win1 & Hdown & _ & Hmove & _).
  eexists _, st1, win1. split; [vm_compute; reflexivity|].
  split; [reflexivity|]. split; [exact Hdown|].
  eexists. split; [exact Hmove|]. reflexivity.
Defined.

Lemma handleMice_idle id evs : forall st win,
  Window.isDragging win = false -> noMouseDown evs = true ->
  handleMice id evs st win = Some (st, win).
Proof.
  induction evs as [|ev rest IH]; intros st win Hidle Hno; [done|].
  simpl in Hno. apply andb_true_iff in Hno as [Hev Hrest].
  destruct ev as [region c|c|]; [done| |]; simpl.
  - unfold handleMouseMove. rewrite Hidle. by apply IH.
  - unfold handleMouseUp. rewrite Hidle. by apply IH.
Qed.

(** X12.  A mouse-down on a window outside its header focuses it and starts
    no drag: whatever moves and mouse-ups follow, the store stays the one
    the focus left, and the controller stays idle. *)
Theorem mouse_down_outside_header_only_focuses
    (id : string) (st : DesktopState) (win : Window.t) (w : WindowState.t)
    (region : HitRegion) (c : Point) (evs : list MouseEvent) :
  windows st !! id = Some w ->
  region <> InHeader ->
  Window.isDragging win = false ->
  noMouseDown evs = true ->
  handleMice id (MouseDown region c :: evs) st win = Some (onFocus id st, win).
Proof.
  intros Hw Hregion Hidle Hno. simpl. unfold handleMouseDown. rewrite Hw.
  destruct region; [| done |]; by apply handleMice_idle.
Qed.

Lemma mouse_down_outside_header_only_focuses_witness :
  let st := openWindow "calculator" (view initialSystem) in
  handleMice "calculator"
    [MouseDown InContent {| x := 100; y := 100 |};
     MouseMove {| x := 300; y := 10 |}; MouseUp;
     MouseMove {| x := 5; y := 5 |}]
    st Window.initial
  = Some (onFocus "calculator" st, Window.initial).
Proof.
  intros st.
  eapply (mouse_down_outside_header_only_focuses "calculator" st Window.initial).
  - vm_compute. reflexivity.
  - discriminate.
  - reflexivity.
  - reflexivity.
Defined.

Lemma handleMice_dragging id offset ms : forall st r,
  windows st !! id = Some r ->
  handleMice id (map MouseMove ms ++ [MouseUp]) st (Window.mk true offset) =
  Some ({| windows :=
             <[id := dropped (pointerToPosition offset <$> last ms) r]>
               (windows st);
           activeId := activeId st;
           nextZIndex := nextZIndex st;
           activeDesktopId := activeDesktopId st |},
        Window.mk false offset).
Proof.
  induction ms as [|m rest IH]; intros st r Hr.
  - simpl. unfold handleMouseUp, updateWindowState, updateWindowStateUpdater.
    simpl. rewrite Hr. simpl. by rewrite spread_releasePatch.
  - simpl. unfold handleMouseMove at 1. simpl.
    erewrite IH; [|apply lookup_insert_eq].
    simpl. unfold updateWindowStateUpdater. rewrite Hr, insert_insert_eq.
    simpl. rewrite last_cons. unfold dropped, pointerToPosition. simpl.
    by destruct (last rest).
Qed.

(** X13.  A whole drag, mouse-down at `c` on the header of a window at `p`,
    any number of moves, mouse-up: the controller is idle again, the window
    carries isDragging = false and the z-index of the focus, it sits where
    the last move put it (`p + (m - c)`) or where it was when the pointer
    never moved, all its other properties and all other windows are as
    before, and the stacking invariant still holds. *)
Theorem drag_gesture
    (id : string) (st : DesktopState) (win : Window.t)
    (w : WindowState.t) (p c : Point) (ms : list Point) :
  windows st !! id = Some w ->
  WindowState.position w = Some p ->
  let offset := {| x := x c - x p; y := y c - y p |} in
  let st' :=
    {| windows :=
         <[id := dropped (pointerToPosition offset <$> last ms)
                   (WindowState.withZIndex (nextZIndex st + 1) w)]>
           (windows st);
       activeId := Some id;
       nextZIndex := nextZIndex st + 1;
       activeDesktopId := activeDesktopId st |} in
  handleMice id (MouseDown InHeader c :: map MouseMove ms ++ [MouseUp]) st win
    = Some (st', Window.mk false offset) /\
  (Inv st -> Inv st').
Proof.
  intros Hw Hp offset st'.
  assert (Hrun :
    handleMice id (MouseDown InHeader c :: map MouseMove ms ++ [MouseUp]) st win
    = Some (st', Window.mk false offset)).
  { cbn [handleMice handleMouse]. unfold handleMouseDown. rewrite Hw, Hp.
    erewrite handleMice_dragging.
    - unfold st'. simpl. unfold onFocusUpdater. rewrite Hw. simpl.
      by rewrite insert_insert_eq.
    - simpl. unfold onFocusUpdater. rewrite Hw. apply lookup_insert_eq. }
  split; [exact Hrun|].
  intros HI.
  assert (HF : Inv (onFocus id st)) by (apply Inv_onFocus; eauto).
  assert (Hl : windows (onFocus id st) !! id
               = Some (WindowState.withZIndex (nextZIndex st + 1) w)).
  { simpl. unfold onFocusUpdater. rewrite Hw. apply lookup_insert_eq. }
  pose proof (Inv_replace (onFocus id st) id _
                (dropped (pointerToPosition offset <$> last ms)
                   (WindowState.withZIndex (nextZIndex st + 1) w))
                Hl eq_refl eq_refl HF) as HR.
  simpl in HR. unfold onFocusUpdater in HR. rewrite Hw in HR. simpl in HR.
  rewrite insert_insert_eq in HR. exact HR.
Qed.

Lemma drag_gesture_witness :
  let st := openWindow "settings"
              (openWindow "calculator" (view initialSystem)) in
  exists w st' win',
    windows st !! "calculator" = Some w /\
    WindowState.position w = Some {| x := 50; y := 50 |} /\
    handleMice "calculator"
      (MouseDown InHeader {| x := 60; y := 55 |}
         :: map MouseMove [{| x := 100; y := 90 |}; {| x := 200; y := 300 |}]
         ++ [MouseUp])
      st Window.initial = Some (st', win') /\
    exists w',
      windows st' !! "calculator" = Some w' /\
      WindowState.position w' = Some {| x := 190; y := 295 |} /\
      WindowState.isDragging w' = Some false.
Proof.
  intros st.
  destruct (drag_gesture "calculator" st Window.initial _
              {| x := 50; y := 50 |} {| x := 60; y := 55 |}
              [{| x := 100; y := 90 |}; {| x := 200; y := 300 |}]
              ltac:(vm_compute; reflexivity) ltac:(reflexivity))
    as [Hrun _].
  eexists _, _, _. split; [vm_compute; reflexivity|].
  split; [reflexivity|]. split; [exact Hrun|].
  eexists. split; [apply lookup_insert_eq|]. split; reflexivity.
Defined.

(* ===================================================================== *)
(* Authentication and the screen lock                                      *)
(* ===================================================================== *)

(** X14.  A logout empties the desktop and locks it: the service has no
    user, the listener clears the store (nothing is rendered or listed as
    minimized on any desktop) and sets the lock, while the z-index counter
    keeps its value; the invariant holds of the emptied state, and the
    first window opened after unlocking, under an id that is not a name
    every object inherits, starts the cascade again at (50, 50) with the
    next z-index of the old counter. *)
Theorem logout_clears_desktop
    (auth : MockAuthenticationService.t) (s : Session) (f : string) :
  let s' := onAuthChange (snd (MockAuthenticationService.logout auth)) s in
  MockAuthenticationService.getCurrentUser
    (fst (MockAuthenticationService.logout auth)) = None /\
  isLocked s' = true /\
  currentUser s' = None /\
  windows (desktop s') = ∅ /\
  (forall d, getVisibleWindows (windows (desktop s')) d = []) /\
  getMinimizedWindows (windows (desktop s')) = [] /\
  nextZIndex (desktop s') = nextZIndex (desktop s) /\
  Inv (desktop s') /\
  isLocked (onUnlock s') = false /\
  (inheritsProperty f = false ->
   windows (openWindow f (desktop (onUnlock s'))) !! f =
     Some (WindowState.mk (Some f) (Some {| x := 50; y := 50 |})
             (Some {| width := 800; height := 600 |})
             (Some (nextZIndex (desktop s) + 1)) (Some false) (Some false)
             (Some false) (Some false)
             (Some (activeDesktopId (desktop s))) (Some 1))).
Proof.
  intros s'.
  assert (Hempty : windows (desktop s') = ∅) by done.
  do 4 (split; [done|]).
  split; [intros d; unfold getVisibleWindows, values; rewrite Hempty;
          by rewrite map_to_list_empty|].
  split; [unfold getMinimizedWindows, values; rewrite Hempty;
          by rewrite map_to_list_empty|].
  split; [done|]. split; [|split; [done|]].
  - split; rewrite ?Hempty.
    + intros k w Hk. by rewrite lookup_empty in Hk.
    + intros k w Hk. by rewrite lookup_empty in Hk.
    + intros i j wi wj Hi. by rewrite lookup_empty in Hi.
    + intros a wa _ Hl. rewrite Hempty in Hl. by rewrite lookup_empty in Hl.
  - intros Hown. simpl.
    rewrite openWindowUpdater_fresh by (done || apply lookup_empty).
    by rewrite map_size_empty.
Qed.

Lemma logout_clears_desktop_witness :
  let s := {| desktop := openWindow "calculator" (view initialSystem);
              isLocked := false; currentUser := None |} in
  let s' := onAuthChange
              (snd (MockAuthenticationService.logout
                      MockAuthenticationService.create)) s in
  inheritsProperty "settings" = false /\
  exists w,
    windows (openWindow "settings" (desktop (onUnlock s'))) !! "settings"
      = Some w /\
    WindowState.position w = Some {| x := 50; y := 50 |} /\
    WindowState.zIndex w = Some 12.
Proof.
  intros s s'. split; [reflexivity|].
  eexists. split.
  - apply (logout_clears_desktop MockAuthenticationService.create s "settings").
    reflexivity.
  - split; reflexivity.
Defined.

(** X15.  The lock does not depend on authentication.  At first mount with
    no user the screen is locked; a login hands every listener the profile
    it returns, whose username falls back to "demoUser" when the
    credentials carry none or an empty one, and leaves the lock and the
    windows as they were; unlocking needs no user. *)
Theorem lock_independent_of_login
    (svc : VirtualDesktopService.t) (auth : MockAuthenticationService.t)
    (username : option string) (now : Z) (s : Session) :
  isLocked (mountSession svc MockAuthenticationService.create) = true /\
  (let '(auth', user, notified) :=
     MockAuthenticationService.login username now auth in
   notified = Some user /\
   MockAuthenticationService.getCurrentUser auth' = Some user /\
   (UserProfile.username user =
      match username with
      | Some u => if decide (u = "") then "demoUser" else u
      | None => "demoUser"
      end) /\
   isLocked (onAuthChange notified s) = isLocked s /\
   desktop (onAuthChange notified s) = desktop s /\
   currentUser (onAuthChange notified s) = Some user) /\
  isLocked (onUnlock s) = false /\
  desktop (onUnlock s) = desktop s /\
  currentUser (onUnlock s) = currentUser s.
Proof.
  split; [done|]. split; [|done]. simpl.
  repeat (split; [done|]). split; [|done].
  unfold MockAuthenticationService.usernameOf.
  destruct username as [u|]; [|done].
  by case_bool_decide; case_decide.
Qed.

(* ===================================================================== *)
(* NotificationService                                                     *)
(* ===================================================================== *)

Lemma slice0_nonneg {A : Type} (l : list A) (stop : Z) :
  0 <= stop -> slice0 l stop = take (Z.to_nat stop) l.
Proof.
  intros Hs. unfold slice0.
  destruct (stop <? 0) eqn:Hneg; [apply Z.ltb_lt in Hneg; lia|].
  destruct (Z.le_ge_cases stop (Z.of_nat (length l))) as [Hle|Hge].
  - by rewrite Z.min_l.
  - rewrite Z.min_r, Nat2Z.id by done. rewrite !firstn_all2; [done| |lia].
    lia.
Qed.

Lemma slice0_length {A : Type} (l : list A) (stop : Z) :
  Z.of_nat (length (slice0 l stop)) =
  if stop <? 0 then Z.max (Z.of_nat (length l) + stop) 0
  else Z.min stop (Z.of_nat (length l)).
Proof.
  unfold slice0. rewrite length_take.
  destruct (stop <? 0) eqn:Hneg.
  - apply Z.ltb_lt in Hneg. lia.
  - apply Z.ltb_ge in Hneg. lia.
Qed.

(** X16.  `addNotification` keeps the list within `maxNotifications`: with
    a limit of at least one the new notification, unread, comes first and
    is followed by the newest `maxNotifications - 1` of the old ones in
    their order; with a limit of zero nothing is kept, although an id is
    returned. *)
Theorem addNotification_newest_first_bounded
    (input : NotificationInput.t) (id : string) (now : Z)
    (svc : NotificationService.t) :
  let max := SystemConfig.maxNotifications (NotificationService.config svc) in
  let svc' := (NotificationService.addNotification input id now svc).1.1 in
  (1 <= max ->
   NotificationService.notifications svc' =
     NotificationService.build input id now
       :: take (Z.to_nat (max - 1)) (NotificationService.notifications svc)) /\
  (0 <= max ->
   Z.of_nat (length (NotificationService.notifications svc')) =
     Z.min max
       (Z.of_nat (length (NotificationService.notifications svc)) + 1)) /\
  (max = 0 -> NotificationService.notifications svc' = []) /\
  (NotificationService.addNotification input id now svc).1.2 = id /\
  Notification.isRead (NotificationService.build input id now) = false /\
  Notification.id (NotificationService.build input id now) = id.
Proof.
  intros max svc'. split; [|split; [|split; [|done]]].
  - intros Hmax. unfold svc'. simpl. fold max.
    rewrite slice0_nonneg by lia.
    replace (Z.to_nat max) with (S (Z.to_nat (max - 1))) by lia. done.
  - intros Hmax. unfold svc'. simpl. fold max.
    rewrite slice0_length. simpl length.
    destruct (max <? 0) eqn:Hneg; [apply Z.ltb_lt in Hneg; lia|]. lia.
  - intros Hmax. unfold svc'. simpl. fold max. rewrite Hmax. done.
Qed.

Lemma addNotification_newest_first_bounded_witness :
  let svc := NotificationService.create SystemConfig.initial in
  let input :=
    NotificationInput.mk "AI" "done" NotifyInfo None (Some 3000) None in
  1 <= SystemConfig.maxNotifications (NotificationService.config svc) /\
  NotificationService.notifications
    (NotificationService.addNotification input "a1" 7 svc).1.1
  = [NotificationService.build input "a1" 7].
Proof.
  intros svc input. split; [simpl; lia|].
  apply (proj1 (addNotification_newest_first_bounded input "a1" 7 svc)).
  simpl. lia.
Defined.

Lemma call_length c svc :
  0 <= SystemConfig.maxNotifications (NotificationService.config svc) ->
  Z.of_nat (length (NotificationService.notifications svc))
    <= SystemConfig.maxNotifications (NotificationService.config svc) ->
  NotificationService.config (NotificationService.call c svc)
    = NotificationService.config svc /\
  Z.of_nat (length (NotificationService.notifications
                      (NotificationService.call c svc)))
    <= SystemConfig.maxNotifications (NotificationService.config svc).
Proof.
  intros Hmax Hlen. destruct c as [input id now|id|id]; simpl.
  - split; [done|]. rewrite slice0_length. simpl length.
    destruct (_ <? 0) eqn:Hneg; [apply Z.ltb_lt in Hneg; lia|]. lia.
  - split; [done|].
    pose proof (filter_length_le
      (fun n => negb (bool_decide (Notification.id n = id)))
      (NotificationService.notifications svc)). lia.
  - split; [done|]. by rewrite length_map.
Qed.

(** X17.  Whatever sequence of `addNotification`, `dismissNotification` and
    `markAsRead` calls is made on a fresh service, the list never holds
    more than `maxNotifications` notifications. *)
Theorem notifications_never_exceed_limit
    (cfg : SystemConfig.t) (cs : list NotificationService.Call) :
  0 <= SystemConfig.maxNotifications cfg ->
  Z.of_nat (length (NotificationService.notifications
                      (NotificationService.calls cs
                         (NotificationService.create cfg))))
    <= SystemConfig.maxNotifications cfg.
Proof.
  intros Hmax.
  assert (Hgen : forall svc,
    NotificationService.config svc = cfg ->
    Z.of_nat (length (NotificationService.notifications svc))
      <= SystemConfig.maxNotifications cfg ->
    Z.of_nat (length (NotificationService.notifications
                        (NotificationService.calls cs svc)))
      <= SystemConfig.maxNotifications cfg).
  { induction cs as [|c rest IH]; intros svc Hcfg Hlen; [done|].
    unfold NotificationService.calls. simpl.
    destruct (call_length c svc) as [Hc Hl]; rewrite ?Hcfg; try done.
    apply IH; [by rewrite Hc|]. by rewrite Hcfg in Hl. }
  apply Hgen; [done|]. simpl. lia.
Qed.

Lemma notifications_never_exceed_limit_witness :
  let input := NotificationInput.mk "t" "m" NotifyInfo None None None in
  0 <= SystemConfig.maxNotifications SystemConfig.initial /\
  Z.of_nat (length (NotificationService.notifications
                      (NotificationService.calls
                         [NotificationService.Add input "a" 1;
                          NotificationService.Add input "b" 2;
                          NotificationService.MarkAsRead "a";
                          NotificationService.Dismiss "b"]
                         (NotificationService.create SystemConfig.initial))))
    <= SystemConfig.maxNotifications SystemConfig.initial.
Proof.
  intros input. split; [simpl; lia|].
  apply (notifications_never_exceed_limit SystemConfig.initial).
  simpl. lia.
Defined.

(** X18.  `dismissNotification(id)` removes every notification with that id
    and nothing else, keeps the order of the rest, changes nothing when no
    notification has the id, and dismissing twice is dismissing once. *)
Theorem dismissNotification_removes_exactly
    (id : string) (svc : NotificationService.t) :
  (forall n,
     n ∈ NotificationService.notifications
           (NotificationService.dismissNotification id svc) <->
     n ∈ NotificationService.notifications svc /\ Notification.id n <> id) /\
  sublist (NotificationService.notifications
             (NotificationService.dismissNotification id svc))
          (NotificationService.notifications svc) /\
  ((forall n, n ∈ NotificationService.notifications svc ->
      Notification.id n <> id) ->
   NotificationService.dismissNotification id svc = svc) /\
  NotificationService.dismissNotification id
    (NotificationService.dismissNotification id svc)
  = NotificationService.dismissNotification id svc.
Proof.
  destruct svc as [ns cfg]. unfold NotificationService.dismissNotification.
  simpl.
  assert (Hiff : forall l (n : Notification.t),
    n ∈ List.filter (fun n => negb (bool_decide (Notification.id n = id))) l
    <-> n ∈ l /\ Notification.id n <> id).
  { intros l n. rewrite list_elem_of_In, filter_In, <- list_elem_of_In.
    by rewrite negb_true_iff, bool_decide_eq_false. }
  split; [apply Hiff|]. split; [|split].
  - induction ns as [|n ns IH]; simpl; [done|].
    destruct (negb _); by constructor.
  - intros Hnone. f_equal. induction ns as [|n ns IH]; simpl; [done|].
    rewrite bool_decide_eq_false_2
      by (apply Hnone; apply list_elem_of_here).
    simpl. f_equal. apply IH. intros m Hm. apply Hnone.
    by apply list_elem_of_further.
  - f_equal. induction ns as [|n ns IH]; simpl; [done|].
    destruct (negb (bool_decide (Notification.id n = id))) eqn:Hn; simpl.
    + rewrite Hn. by f_equal.
    + done.
Qed.

Lemma dismissNotification_removes_exactly_witness :
  let input := NotificationInput.mk "t" "m" NotifyInfo None None None in
  let svc :=
    NotificationService.calls
      [NotificationService.Add input "a" 1; NotificationService.Add input "b" 2]
      (NotificationService.create SystemConfig.initial) in
  (forall n, n ∈ NotificationService.notifications svc ->
     Notification.id n <> "c") /\
  NotificationService.dismissNotification "c" svc = svc.
Proof.
  intros input svc.
  assert (Hnone : forall n, n ∈ NotificationService.notifications svc ->
                            Notification.id n <> "c").
  { intros n Hn. vm_compute in Hn.
    apply elem_of_cons in Hn as [->|Hn]; [discriminate|].
    apply elem_of_cons in Hn as [->|Hn]; [discriminate|].
    by apply not_elem_of_nil in Hn. }
  split; [exact Hnone|].
  exact (proj1 (proj2 (proj2
    (dismissNotification_removes_exactly "c" svc))) Hnone).
Defined.

(** X19.  `markAsRead(id)` keeps the number, the ids and the order of the
    notifications; afterwards every notification with that id is read and
    every other one is exactly as before; marking twice is marking once,
    and marking commutes with dismissing. *)
Theorem markAsRead_marks_only_that_id
    (id : string) (svc : NotificationService.t) :
  List.map Notification.id
    (NotificationService.notifications (NotificationService.markAsRead id svc))
  = List.map Notification.id (NotificationService.notifications svc) /\
  (forall i n,
     NotificationService.notifications svc !! i = Some n ->
     NotificationService.notifications (NotificationService.markAsRead id svc)
       !! i
     = Some (if decide (Notification.id n = id) then Notification.read n
             else n)) /\
  NotificationService.markAsRead id (NotificationService.markAsRead id svc)
  = NotificationService.markAsRead id svc /\
  (forall j,
     NotificationService.dismissNotification j
       (NotificationService.markAsRead id svc)
     = NotificationService.markAsRead id
         (NotificationService.dismissNotification j svc)).
Proof.
  destruct svc as [ns cfg]. unfold NotificationService.markAsRead,
    NotificationService.dismissNotification. simpl.
  split; [|split; [|split]].
  - rewrite List.map_map. apply List.map_ext. intros n.
    by case_bool_decide.
  - intros i n. revert i.
    induction ns as [|m ns IH]; intros [|i] Hi; simpl in *; try done.
    + inversion Hi; subst. f_equal. by case_bool_decide; case_decide.
    + by apply IH.
  - f_equal. rewrite List.map_map. apply List.map_ext. intros n.
    destruct (decide (Notification.id n = id)) as [Hn|Hn].
    + rewrite (bool_decide_eq_true_2 _ Hn). simpl.
      by rewrite (bool_decide_eq_true_2 _ Hn).
    + rewrite (bool_decide_eq_false_2 _ Hn).
      by rewrite (bool_decide_eq_false_2 _ Hn).
  - intros j. f_equal. induction ns as [|n ns IH]; simpl; [done|].
    assert (Hid : Notification.id
              (if bool_decide (Notification.id n = id)
               then Notification.read n else n) = Notification.id n)
      by (by case_bool_decide).
    rewrite Hid. destruct (negb (bool_decide (Notification.id n = j)));
      simpl; by rewrite IH.
Qed.

(** X20.  The timer of a notification undoes its insertion: when the id is
    new to the list and the list was below the limit, `addNotification`
    followed by the `dismissNotification(id)` its timer runs gives the
    service back as it was; the timer is set exactly when the duration is
    positive. *)
Theorem addNotification_then_timer
    (input : NotificationInput.t) (id : string) (now : Z)
    (svc : NotificationService.t) :
  (forall n, n ∈ NotificationService.notifications svc ->
     Notification.id n <> id) ->
  Z.of_nat (length (NotificationService.notifications svc))
    < SystemConfig.maxNotifications (NotificationService.config svc) ->
  NotificationService.dismissNotification id
    (NotificationService.addNotification input id now svc).1.1 = svc /\
  ((NotificationService.addNotification input id now svc).2 <> None <->
   exists d, NotificationInput.duration input = Some d /\ 0 < d).
Proof.
  intros Hfresh Hroom. split.
  - destruct svc as [ns cfg]. simpl in *.
    unfold NotificationService.dismissNotification. simpl.
    rewrite slice0_nonneg by lia.
    rewrite firstn_all2 by (simpl; lia). simpl.
    rewrite bool_decide_eq_true_2 by done. simpl. f_equal.
    induction ns as [|n ns IH]; simpl; [done|].
    rewrite bool_decide_eq_false_2
      by (apply Hfresh; apply list_elem_of_here).
    simpl. f_equal. apply IH.
    + intros m Hm. apply Hfresh. by apply list_elem_of_further.
    + simpl in Hroom. lia.
  - simpl. unfold NotificationService.timerOf. simpl.
    destruct (NotificationInput.duration input) as [d|]; split.
    + destruct (0 <? d) eqn:Hd; [|done]. intros _. exists d.
      split; [done|]. by apply Z.ltb_lt.
    + intros (d' & [= <-] & Hd). apply Z.ltb_lt in Hd. by rewrite Hd.
    + done.
    + by intros (d & Hd & _).
Qed.

Lemma addNotification_then_timer_witness :
  let svc := NotificationService.create SystemConfig.initial in
  let input :=
    NotificationInput.mk "AI" "done" NotifyInfo None (Some 3000) None in
  Z.of_nat (length (NotificationService.notifications svc))
    < SystemConfig.maxNotifications (NotificationService.config svc) /\
  NotificationService.dismissNotification "a1"
    (NotificationService.addNotification input "a1" 7 svc).1.1 = svc /\
  (NotificationService.addNotification input "a1" 7 svc).2 <> None.
Proof.
  intros svc input. split; [simpl; lia|].
  destruct (addNotification_then_timer input "a1" 7 svc) as [Hback Htimer].
  - intros n Hn. by apply not_elem_of_nil in Hn.
  - simpl. lia.
  - split; [exact Hback|]. apply Htimer. exists 3000. split; [done|lia].
Defined.

(* ===================================================================== *)
(* VirtualDesktopService and ThemeService                                  *)
(* ===================================================================== *)

(** X21.  `setActiveDesktop` notifies its listeners exactly when the active
    desktop changes: a registered id other than the active one becomes
    active and is announced; an unregistered id, or the active one again,
    changes nothing and stays silent.  The registry is never touched, and
    repeating the call is always silent. *)
Theorem setActiveDesktop_notifies_iff_changed
    (id : string) (svc : VirtualDesktopService.t) :
  let svc' := (VirtualDesktopService.setActiveDesktop id svc).1 in
  let notified := (VirtualDesktopService.setActiveDesktop id svc).2 in
  (notified = true <->
   VirtualDesktopService.knows svc id = true /\
   VirtualDesktopService.activeDesktopId svc <> id) /\
  (notified = true <->
   VirtualDesktopService.activeDesktopId svc'
   <> VirtualDesktopService.activeDesktopId svc) /\
  (notified = true -> VirtualDesktopService.activeDesktopId svc' = id) /\
  (notified = false -> svc' = svc) /\
  VirtualDesktopService.desktops svc' = VirtualDesktopService.desktops svc /\
  (VirtualDesktopService.setActiveDesktop id svc').2 = false.
Proof.
  intros svc' notified. unfold svc', notified.
  destruct (setActiveDesktop_cases id svc)
    as [(Hk & Hne & ->)|([Hno|Hsame] & ->)]; simpl.
  - split; [done|]. split; [split; [congruence|done]|].
    split; [done|]. split; [done|]. split; [done|].
    unfold VirtualDesktopService.setActiveDesktop. simpl.
    rewrite bool_decide_eq_true_2 by done. by rewrite andb_false_r.
  - split; [split; [done|intros [Hk _]; congruence]|].
    split; [split; [done|congruence]|].
    split; [done|]. split; [done|]. split; [done|].
    unfold VirtualDesktopService.setActiveDesktop. by rewrite Hno.
  - split; [split; [done|intros [_ Hne]; congruence]|].
    split; [split; [done|congruence]|].
    split; [done|]. split; [done|]. split; [done|].
    unfold VirtualDesktopService.setActiveDesktop.
    rewrite bool_decide_eq_true_2 by done. by rewrite andb_false_r.
Qed.

Lemma applyTheme_cases themeId svc :
  inheritsProperty themeId = false ->
  (exists theme,
     ThemeService.availableThemes svc !! themeId = Some theme /\
     ThemeService.applyTheme themeId svc =
       (ThemeService.mk (ThemeService.OwnTheme theme)
          (ThemeService.availableThemes svc)
          (ThemeService.applyThemeToDOM (ThemeService.OwnTheme theme)),
        Some (ThemeService.OwnTheme theme))) \/
  (ThemeService.availableThemes svc !! themeId = None /\
   ThemeService.applyTheme themeId svc = (svc, None)).
Proof.
  intros Hown. unfold ThemeService.applyTheme, ThemeService.themeAt.
  destruct (ThemeService.availableThemes svc !! themeId) as [theme|];
    [left; by exists theme|right]. by rewrite Hown.
Qed.

Lemma applyThemes_spec ids : forall svc,
  Forall (fun themeId => inheritsProperty themeId = false) ids ->
  ThemeService.availableThemes (ThemeService.applyThemes ids svc)
    = ThemeService.availableThemes svc /\
  match ThemeService.lastKnown (ThemeService.availableThemes svc) ids with
  | Some theme =>
      ThemeService.currentTheme (ThemeService.applyThemes ids svc)
        = ThemeService.OwnTheme theme /\
      ThemeService.document (ThemeService.applyThemes ids svc)
        = ThemeService.applyThemeToDOM (ThemeService.OwnTheme theme)
  | None => ThemeService.applyThemes ids svc = svc
  end.
Proof.
  induction ids as [|themeId rest IH] using rev_ind; intros svc Hown; [done|].
  apply Forall_app in Hown as [Hrest Hid].
  apply (Forall_inv (P := fun themeId => inheritsProperty themeId = false))
    in Hid.
  unfold ThemeService.applyThemes, ThemeService.lastKnown.
  rewrite !foldl_snoc.
  fold (ThemeService.applyThemes rest svc).
  fold (ThemeService.lastKnown (ThemeService.availableThemes svc) rest).
  destruct (IH svc Hrest) as [Hav Hlast].
  destruct (applyTheme_cases themeId (ThemeService.applyThemes rest svc) Hid)
    as [(theme & Hl & ->)|(Hl & ->)]; simpl; rewrite Hav in Hl; rewrite Hl.
  - done.
  - done.
Qed.

(** X22.  After any sequence of `applyTheme` calls on the service as
    constructed, none of them with a name every object inherits, the
    current theme is the last requested one that exists ("atlas-dark" when
    none does), it is one of the two registered themes, and the document
    carries its colours and the body class "atlas-theme-" followed by its
    id; a further call with an id that is neither registered nor inherited
    changes nothing and calls no listener. *)
Theorem applyTheme_keeps_document_in_sync (ids : list string) :
  Forall (fun themeId => inheritsProperty themeId = false) ids ->
  let svc := ThemeService.applyThemes ids ThemeService.create in
  let current :=
    default ThemeService.atlasDark
      (ThemeService.lastKnown
         (ThemeService.availableThemes ThemeService.create) ids) in
  ThemeService.currentTheme svc = ThemeService.OwnTheme current /\
  (current = ThemeService.atlasDark \/
   current = ThemeService.citibankCorporate) /\
  ThemeService.document svc
    = ThemeService.applyThemeToDOM (ThemeService.OwnTheme current) /\
  bodyClassName (ThemeService.document svc)
    = String.append "atlas-theme-" (DesktopTheme.id current) /\
  ThemeService.availableThemes svc !! DesktopTheme.id current = Some current /\
  (forall themeId,
     ThemeService.availableThemes svc !! themeId = None ->
     inheritsProperty themeId = false ->
     ThemeService.applyTheme themeId svc = (svc, None)).
Proof.
  intros Hown svc current. unfold svc.
  destruct (applyThemes_spec ids ThemeService.create Hown) as [Hav Hlast].
  assert (Hcur :
    ThemeService.currentTheme
      (ThemeService.applyThemes ids ThemeService.create)
      = ThemeService.OwnTheme current /\
    ThemeService.document (ThemeService.applyThemes ids ThemeService.create)
    = ThemeService.applyThemeToDOM (ThemeService.OwnTheme current)).
  { unfold current.
    destruct (ThemeService.lastKnown _ ids) as [theme|].
    - destruct Hlast as [-> ->]. done.
    - rewrite Hlast. done. }
  destruct Hcur as [Hcur Hdoc].
  assert (Htwo : forall theme,
    ThemeService.lastKnown
      (ThemeService.availableThemes ThemeService.create) ids = Some theme ->
    theme = ThemeService.atlasDark \/ theme = ThemeService.citibankCorporate).
  { clear. induction ids as [|themeId rest IH] using rev_ind; [done|].
    intros theme. unfold ThemeService.lastKnown. rewrite foldl_snoc.
    fold (ThemeService.lastKnown
            (ThemeService.availableThemes ThemeService.create) rest).
    destruct (ThemeService.availableThemes ThemeService.create !! themeId)
      as [t0|] eqn:Hl; [|by apply IH].
    intros [= <-]. simpl in Hl. rewrite lookup_insert in Hl.
    case_decide; [right; congruence|].
    rewrite lookup_insert in Hl. case_decide; [left; congruence|].
    by rewrite lookup_empty in Hl. }
  assert (Hone : current = ThemeService.atlasDark \/
                 current = ThemeService.citibankCorporate).
  { unfold current.
    destruct (ThemeService.lastKnown _ ids) as [theme|] eqn:Hk.
    - by apply Htwo.
    - by left. }
  split; [exact Hcur|]. split; [exact Hone|]. split; [exact Hdoc|].
  split; [by rewrite Hdoc|]. split.
  - rewrite Hav. by destruct Hone as [-> | ->].
  - intros themeId Hnone Hid.
    unfold ThemeService.applyTheme, ThemeService.themeAt.
    by rewrite Hnone, Hid.
Qed.

Lemma applyTheme_keeps_document_in_sync_witness :
  Forall (fun themeId => inheritsProperty themeId = false)
    ["citibank-corporate"; "solarized"] /\
  ThemeService.currentTheme
    (ThemeService.applyThemes ["citibank-corporate"; "solarized"]
       ThemeService.create)
  = ThemeService.OwnTheme ThemeService.citibankCorporate.
Proof.
  assert (Hown : Forall (fun themeId => inheritsProperty themeId = false)
                   ["citibank-corporate"; "solarized"]).
  { repeat constructor. }
  split; [exact Hown|].
  exact (proj1 (applyTheme_keeps_document_in_sync
                  ["citibank-corporate"; "solarized"] Hown)).
Defined.

(* ===================================================================== *)
(* ActionManager                                                           *)
(* ===================================================================== *)

(** X23.  `executeAction` runs the callback registered last under the id
    and logs the call; registering under another id does not disturb it;
    an id nobody registered leaves the world untouched and only warns.
    `ServiceLocator.initialize()` registers "show_notification" and
    "ai_query" alone, so "open_feature", the action behind every search
    result and AI suggestion, does nothing but warn. *)
Theorem executeAction_runs_last_registered
    {Payload World : Type}
    (id : string) (first last : @ActionManager.ActionCallback Payload World)
    (actions : gmap string (@ActionManager.ActionCallback Payload World))
    (payload : Payload) (world : World) :
  ActionManager.executeAction id payload
    (ActionManager.registerAction id last
       (ActionManager.registerAction id first actions)) world
  = (last payload world, [Executing id payload]) /\
  (forall other callback,
     other <> id ->
     ActionManager.executeAction id payload
       (ActionManager.registerAction other callback actions) world
     = ActionManager.executeAction id payload actions world) /\
  (actions !! id = None ->
   ActionManager.executeAction id payload actions world
   = (world, [ActionNotFound id])) /\
  (forall showNotification aiQuery,
     ActionManager.executeAction "open_feature" payload
       (ActionManager.initialActions showNotification aiQuery) world
     = (world, [ActionNotFound "open_feature"]) /\
     ActionManager.executeAction "show_notification" payload
       (ActionManager.initialActions showNotification aiQuery) world
     = (showNotification payload world,
        [Executing "show_notification" payload])).
Proof.
  unfold ActionManager.executeAction, ActionManager.initialActions,
    ActionManager.registerAction.
  split; [by rewrite lookup_insert_eq|]. split; [|split].
  - intros other callback Hne. by rewrite lookup_insert_ne.
  - intros Hnone. unfold ActionManager.ActionCallback in *. by rewrite Hnone.
  - intros showNotification aiQuery. split.
    + rewrite !lookup_insert_ne by discriminate. by rewrite lookup_empty.
    + rewrite lookup_insert_ne by discriminate. by rewrite lookup_insert_eq.
Qed.

(* ===================================================================== *)
(* generateUniqueId                                                        *)
(* ===================================================================== *)

Lemma padded_byte (b : byte) :
  padStart 2 "0" (toString16 b) =
  String (hexDigit (Byte.to_N b / 16))
    (String (hexDigit (Byte.to_N b mod 16)) EmptyString).
Proof. by destruct b. Qed.

Lemma hexValue_high (b : byte) :
  hexValue (hexDigit (Byte.to_N b / 16)) = Some (Byte.to_N b / 16)%N.
Proof. by destruct b. Qed.

Lemma hexValue_low (b : byte) :
  hexValue (hexDigit (Byte.to_N b mod 16)) = Some (Byte.to_N b mod 16)%N.
Proof. by destruct b. Qed.

Lemma byte_of_digits (b : byte) :
  Byte.of_N (16 * (Byte.to_N b / 16) + Byte.to_N b mod 16) = Some b.
Proof. by destruct b. Qed.

Lemma generateUniqueId_cons (b : byte) (bytes : list byte) :
  generateUniqueId (b :: bytes) =
  String (hexDigit (Byte.to_N b / 16))
    (String (hexDigit (Byte.to_N b mod 16)) (generateUniqueId bytes)).
Proof.
  unfold generateUniqueId. simpl List.map. rewrite !padded_byte.
  destruct bytes as [|b' rest]; [done|].
  simpl List.map. rewrite !padded_byte. done.
Qed.

(** X24.  `generateUniqueId` writes two lower-case hexadecimal digits per
    random byte, so 32 characters for the 16 bytes it draws, and the id
    can be read back into the bytes: different bytes never give the same
    id. *)
Theorem generateUniqueId_is_injective_hex (bytes : list byte) :
  String.length (generateUniqueId bytes) = (2 * length bytes)%nat /\
  (length bytes = 16%nat -> String.length (generateUniqueId bytes) = 32%nat) /\
  parseUniqueId (generateUniqueId bytes) = Some bytes /\
  (forall other,
     generateUniqueId other = generateUniqueId bytes -> other = bytes).
Proof.
  assert (Hlen : forall bs,
    String.length (generateUniqueId bs) = (2 * length bs)%nat).
  { induction bs as [|b bs IH]; [done|].
    rewrite generateUniqueId_cons. simpl. rewrite IH. lia. }
  assert (Hparse : forall bs, parseUniqueId (generateUniqueId bs) = Some bs).
  { induction bs as [|b bs IH]; [done|].
    rewrite generateUniqueId_cons. cbn [parseUniqueId].
    by rewrite hexValue_high, hexValue_low, IH, byte_of_digits. }
  split; [apply Hlen|]. split; [intros H16; rewrite Hlen, H16; done|].
  split; [apply Hparse|].
  intros other Heq. apply (f_equal parseUniqueId) in Heq.
  rewrite !Hparse in Heq. congruence.
Qed.

Lemma generateUniqueId_is_injective_hex_witness :
  length [x00; x0a; xff; x10; x00; x0a; xff; x10;
          x00; x0a; xff; x10; x00; x0a; xff; x7f] = 16%nat /\
  generateUniqueId [x00; x0a; xff; x10; x00; x0a; xff; x10;
                    x00; x0a; xff; x10; x00; x0a; xff; x7f]
    = "000aff10000aff10000aff10000aff7f" /\
  String.length
    (generateUniqueId [x00; x0a; xff; x10; x00; x0a; xff; x10;
                       x00; x0a; xff; x10; x00; x0a; xff; x7f]) = 32%nat.
Proof.
  split; [reflexivity|]. split; [reflexivity|].
  apply (proj1 (proj2 (generateUniqueId_is_injective_hex
    [x00; x0a; xff; x10; x00; x0a; xff; x10;
     x00; x0a; xff; x10; x00; x0a; xff; x7f]))).
  reflexivity.
Defined.

(* ===================================================================== *)
(* SearchService                                                           *)
(* ===================================================================== *)

Lemma lookup_map_Some {A B : Type} (f : A -> B) (l : list A) i x :
  l !! i = Some x -> List.map f l !! i = Some (f x).
Proof.
  revert i. induction l as [|y l IH]; intros [|i] Hi; simpl in *; try done.
  - by inversion Hi.
  - by apply IH.
Qed.

Section SearchProperties.

Context {Action : Type}.
Context (toLowerCase trim : string -> string).
Context (includes : string -> string -> bool).

Lemma sortByScore_constant (c : Z) (results : list (SearchResult Action)) :
  Forall (fun r => score r = c) results ->
  SearchService.sortByScore results = results.
Proof.
  induction 1 as [|r rest Hr Hrest IH]; [done|].
  unfold SearchService.sortByScore in *. simpl. rewrite IH.
  destruct Hrest as [|s rest' Hs _]; [done|]. simpl.
  rewrite Hr, Hs. by rewrite Z.leb_refl.
Qed.

Lemma omap_resultOf lowerQuery (items : list (SearchItem.t Action)) :
  omap (SearchService.resultOf toLowerCase includes lowerQuery) items =
  List.map (fun it => {| item := it; score := 10 |})
    (List.filter
       (fun it => includes (toLowerCase (SearchItem.title it)) lowerQuery)
       items).
Proof.
  unfold SearchService.resultOf, SearchService.scoreOf.
  induction items as [|it rest IH]; [done|]. simpl.
  destruct (includes (toLowerCase (SearchItem.title it)) lowerQuery);
    simpl; [apply (f_equal (cons _))|]; exact IH.
Qed.

Lemma search_nonblank (query : string) (items : list (SearchItem.t Action)) :
  trim (toLowerCase query) <> "" ->
  SearchService.search toLowerCase trim includes query items =
  List.map (fun it => {| item := it; score := 10 |})
    (List.filter
       (fun it =>
          includes (toLowerCase (SearchItem.title it)) (toLowerCase query))
       items).
Proof.
  intros Hq. unfold SearchService.search.
  rewrite bool_decide_eq_false_2 by done. rewrite omap_resultOf.
  apply (sortByScore_constant 10). apply Forall_forall.
  intros r Hr. apply list_elem_of_In, in_map_iff in Hr as (it & <- & _).
  done.
Qed.

(** X25.  `search` returns nothing for a query that is blank once
    lower-cased and trimmed; otherwise it returns, in index order, exactly
    the items whose lower-cased title includes the lower-cased query, each
    with score 10 (description and id are never looked at). *)
Theorem search_returns_title_matches
    (query : string) (items : list (SearchItem.t Action)) :
  (trim (toLowerCase query) = "" ->
   SearchService.search toLowerCase trim includes query items = []) /\
  (trim (toLowerCase query) <> "" ->
   SearchService.search toLowerCase trim includes query items =
   List.map (fun it => {| item := it; score := 10 |})
     (List.filter
        (fun it =>
           includes (toLowerCase (SearchItem.title it)) (toLowerCase query))
        items)).
Proof.
  split; intros Hq.
  - unfold SearchService.search. by rewrite bool_decide_eq_true_2.
  - by apply search_nonblank.
Qed.

Lemma indexItem_ids_present (new : SearchItem.t Action) items :
  SearchItem.id new ∈ List.map SearchItem.id items ->
  List.map SearchItem.id (SearchService.indexItem new items)
  = List.map SearchItem.id items.
Proof.
  induction items as [|old rest IH]; simpl; intros Hin.
  - by apply not_elem_of_nil in Hin.
  - case_bool_decide as Hid; simpl; [by rewrite Hid|].
    f_equal. apply IH. apply elem_of_cons in Hin as [Heq|Hin]; [|done].
    congruence.
Qed.

Lemma indexItem_absent (new : SearchItem.t Action) items :
  SearchItem.id new ∉ List.map SearchItem.id items ->
  SearchService.indexItem new items = items ++ [new].
Proof.
  induction items as [|old rest IH]; simpl; intros Hnot; [done|].
  apply not_elem_of_cons in Hnot as [Hne Hnot].
  rewrite bool_decide_eq_false_2 by congruence. by rewrite IH.
Qed.

Lemma indexItem_elem (new : SearchItem.t Action) items :
  new ∈ SearchService.indexItem new items.
Proof.
  induction items as [|old rest IH]; simpl; [apply list_elem_of_here|].
  case_bool_decide; [apply list_elem_of_here|by apply list_elem_of_further].
Qed.

Lemma indexItem_others (new it : SearchItem.t Action) items :
  SearchItem.id it <> SearchItem.id new ->
  it ∈ SearchService.indexItem new items <-> it ∈ items.
Proof.
  intros Hne. induction items as [|old rest IH]; simpl.
  - rewrite list_elem_of_singleton. split; [intros ->; done|].
    intros Hin. by apply not_elem_of_nil in Hin.
  - case_bool_decide as Hid.
    + rewrite !elem_of_cons. split; intros [Heq|Hin]; auto; congruence.
    + rewrite !elem_of_cons, IH. done.
Qed.

(** X26.  `indexItem` keeps one item per id: an id already indexed keeps
    its place in the order and gets the new item, a new id goes to the
    end; the items with other ids stay; and a non-blank query that the
    new item's title matches finds it, with score 10. *)
Theorem indexItem_replaces_in_place
    (new : SearchItem.t Action) (items : list (SearchItem.t Action))
    (query : string) :
  new ∈ SearchService.indexItem new items /\
  (SearchItem.id new ∈ List.map SearchItem.id items ->
   List.map SearchItem.id (SearchService.indexItem new items)
   = List.map SearchItem.id items) /\
  (SearchItem.id new ∉ List.map SearchItem.id items ->
   SearchService.indexItem new items = items ++ [new]) /\
  (NoDup (List.map SearchItem.id items) ->
   NoDup (List.map SearchItem.id (SearchService.indexItem new items)) /\
   forall it, it ∈ SearchService.indexItem new items ->
     SearchItem.id it = SearchItem.id new -> it = new) /\
  (forall it, SearchItem.id it <> SearchItem.id new ->
     it ∈ SearchService.indexItem new items <-> it ∈ items) /\
  (trim (toLowerCase query) <> "" ->
   includes (toLowerCase (SearchItem.title new)) (toLowerCase query) = true ->
   {| item := new; score := 10 |}
     ∈ SearchService.search toLowerCase trim includes query
         (SearchService.indexItem new items)).
Proof.
  split; [apply indexItem_elem|]. split; [apply indexItem_ids_present|].
  split; [apply indexItem_absent|]. split; [|split].
  - intros Hnd.
    assert (Hids : NoDup (List.map SearchItem.id
                            (SearchService.indexItem new items))).
    { destruct (decide (SearchItem.id new ∈ List.map SearchItem.id items))
        as [Hin|Hnot].
      - by rewrite indexItem_ids_present.
      - rewrite indexItem_absent by done. rewrite List.map_app. simpl.
        apply NoDup_app. split; [done|]. split.
        + intros i Hi Hi'. apply list_elem_of_singleton in Hi'. by subst.
        + apply NoDup_singleton. }
    split; [exact Hids|].
    intros it Hit Hid.
    pose proof (indexItem_elem new items) as Hnew.
    apply list_elem_of_lookup in Hit as [i Hi].
    apply list_elem_of_lookup in Hnew as [j Hj].
    assert (i = j); [|by simplify_eq].
    eapply (NoDup_lookup _ i j (SearchItem.id it) Hids).
    + by apply lookup_map_Some.
    + rewrite Hid. by apply lookup_map_Some.
  - intros it. apply indexItem_others.
  - intros Hq Hmatch.
    rewrite (search_nonblank query _ Hq).
    apply list_elem_of_In, in_map_iff. exists new. split; [done|].
    apply filter_In. split; [|done]. apply list_elem_of_In, indexItem_elem.
Qed.

End SearchProperties.

Lemma search_returns_title_matches_witness :
  asciiTrim (asciiToLowerCase "Calc") <> "" /\
  SearchService.search asciiToLowerCase asciiTrim asciiIncludes "Calc"
    (SearchService.create (fun featureId => featureId))
  = [ {| item := SearchItem.mk "feature-calculator" "Calculator"
                   "Advanced Financial Calculator" "🧮" ResultFeature
                   "calculator";
         score := 10 |} ] /\
  SearchService.search asciiToLowerCase asciiTrim asciiIncludes "   "
    (SearchService.create (fun featureId => featureId)) = [].
Proof.
  assert (Hq : asciiTrim (asciiToLowerCase "Calc") <> "") by discriminate.
  split; [exact Hq|]. split.
  - rewrite (proj2 (search_returns_title_matches asciiToLowerCase asciiTrim
                      asciiIncludes "Calc" _) Hq).
    vm_compute. reflexivity.
  - apply (proj1 (search_returns_title_matches asciiToLowerCase asciiTrim
                    asciiIncludes "   " _)).
    reflexivity.
Defined.

Lemma indexItem_replaces_in_place_witness :
  let items := SearchService.create (fun featureId => featureId) in
  let new := SearchItem.mk "feature-settings" "Preferences" "System options"
               "⚙️" ResultSetting "settings" in
  SearchItem.id new ∈ List.map SearchItem.id items /\
  List.map SearchItem.id (SearchService.indexItem new items)
  = List.map SearchItem.id items /\
  asciiTrim (asciiToLowerCase "PREF") <> "" /\
  {| item := new; score := 10 |}
    ∈ SearchService.search asciiToLowerCase asciiTrim asciiIncludes "PREF"
        (SearchService.indexItem new items).
Proof.
  intros items new.
  assert (Hin : SearchItem.id new ∈ List.map SearchItem.id items).
  { vm_compute. do 3 apply list_elem_of_further. apply list_elem_of_here. }
  assert (Hq : asciiTrim (asciiToLowerCase "PREF") <> "") by discriminate.
  destruct (indexItem_replaces_in_place asciiToLowerCase asciiTrim
              asciiIncludes new items "PREF")
    as (_ & Hids & _ & _ & _ & Hfind).
  split; [exact Hin|]. split; [exact (Hids Hin)|]. split; [exact Hq|].
  apply Hfind; [exact Hq|reflexivity].
Defined.

(* ===================================================================== *)
(* The windows the UI can create                                           *)
(* ===================================================================== *)

(** No feature id is a name that objects inherit. *)
Lemma featuresMap_own_names f :
  is_Some (featuresMap !! f) -> inheritsProperty f = false.
Proof.
  intros [feat Hf]. unfold featuresMap in Hf. simpl in Hf.
  repeat (rewrite lookup_insert in Hf;
          case_decide; [by subst|]).
  by rewrite lookup_empty in Hf.
Qed.

Lemma featuresMap_keyed k feat :
  featuresMap !! k = Some feat -> Feature.id feat = k.
Proof.
  unfold featuresMap. simpl. intros Hk.
  repeat (rewrite lookup_insert in Hk;
          case_decide; [by simplify_eq|]).
  by rewrite lookup_empty in Hk.
Qed.

Lemma featuresMap_size : size featuresMap = 6%nat.
Proof. by vm_compute. Qed.

(** A key is in the store after an event only if it was before, or the
    event opened it. *)
Lemma dispatch_keys ev sys sys' k :
  dispatch ev sys = Some sys' ->
  is_Some (windows (view sys') !! k) ->
  is_Some (windows (view sys) !! k) \/ ev = OpenWindow k.
Proof.
  intros Hd Hk. destruct ev as [f|id|id|id inner|id|id]; simpl in Hd.
  - inversion Hd; subst; clear Hd. simpl in Hk.
    destruct (decide (f = k)) as [->|Hne]; [by right|].
    left. by rewrite openWindowUpdater_other in Hk.
  - case_decide; [|done]. inversion Hd; subst; clear Hd. simpl in Hk.
    left. destruct Hk as [w Hw]. unfold closeWindowUpdater in Hw.
    apply lookup_delete_Some in Hw as [_ Hw]. by eexists.
  - case_decide as Hs; [|done]. inversion Hd; subst; clear Hd. simpl in Hk.
    left. destruct (decide (id = k)) as [->|Hne]; [done|].
    by rewrite onMinimizeUpdater_other in Hk.
  - case_decide as Hs; [|done]. destruct Hs as [w Hw].
    destruct (onMaximize_present inner id (view sys) w Hw) as (w' & Heq & _).
    rewrite Heq in Hd. inversion Hd; subst; clear Hd. simpl in Hk.
    left. destruct (decide (id = k)) as [->|Hne]; [by eexists|].
    by rewrite lookup_insert_ne in Hk.
  - case_decide as Hs; [|done]. inversion Hd; subst; clear Hd. simpl in Hk.
    left. destruct (decide (id = k)) as [->|Hne]; [done|].
    by rewrite onFocusUpdater_other in Hk.
  - inversion Hd; subst. left.
    by destruct (switchDesktop_view id sys) as (<- & _).
Qed.

Lemma run_keys evs : forall sys sys',
  run evs sys = Some sys' ->
  forallb fromUI evs = true ->
  (forall k, is_Some (windows (view sys) !! k) -> is_Some (featuresMap !! k)) ->
  forall k, is_Some (windows (view sys') !! k) -> is_Some (featuresMap !! k).
Proof.
  induction evs as [|ev rest IH]; simpl; intros sys sys' Hr Hui Hinv.
  - by inversion Hr; subst.
  - destruct (dispatch ev sys) as [s1|] eqn:Hd; [|done].
    apply andb_true_iff in Hui as [Hev Hrest].
    eapply IH; [exact Hr|exact Hrest|].
    intros k Hk. destruct (dispatch_keys ev sys s1 k Hd Hk) as [Hold| ->].
    + by apply Hinv.
    + simpl in Hev. by apply bool_decide_eq_true in Hev.
Qed.

Lemma omap_total_length {A B : Type} (f : A -> option B) (l : list A) :
  Forall (fun a => is_Some (f a)) l -> length (omap f l) = length l.
Proof.
  induction 1 as [|a l [b Hb] _ IH]; [done|].
  simpl. rewrite Hb. simpl. by f_equal.
Qed.

(** X27.  When `openWindow` is only ever called with feature ids, as the
    dock, the taskbar and the context menu do, every record of the store
    has a feature under its own id, the store never holds more than the
    six windows of `ALL_FEATURES`, every visible window is rendered, and a
    new window is placed at most at (150, 150). *)
Theorem ui_windows_have_features (evs : list Event) (sys : System) :
  run evs initialSystem = Some sys ->
  forallb fromUI evs = true ->
  (forall k w, windows (view sys) !! k = Some w ->
     exists feat, featureOf w = Some feat /\ Feature.id feat = k) /\
  (size (windows (view sys)) <= 6)%nat /\
  (forall desktop,
     length (renderedWindows (windows (view sys)) desktop)
     = length (getVisibleWindows (windows (view sys)) desktop)) /\
  (forall f, is_Some (featuresMap !! f) ->
     windows (view sys) !! f = None ->
     exists w p,
       windows (openWindow f (view sys)) !! f = Some w /\
       WindowState.position w = Some p /\
       50 <= x p <= 150 /\ y p = x p).
Proof.
  intros Hr Hui.
  assert (Hfeat : forall k, is_Some (windows (view sys) !! k) ->
                            is_Some (featuresMap !! k)).
  { eapply run_keys; [exact Hr|exact Hui|].
    intros k [w Hw]. simpl in Hw. by rewrite lookup_empty in Hw. }
  assert (Hkeyed : keyed (windows (view sys))).
  { apply inv_keyed. eapply Inv_run; [|exact Hr|apply Inv_initial].
    apply forallb_forall. intros ev Hev.
    pose proof (proj1 (forallb_forall fromUI evs) Hui ev Hev) as Hfrom.
    destruct ev as [f| | | | |]; try done. simpl in *.
    apply negb_true_iff, featuresMap_own_names.
    by apply bool_decide_eq_true in Hfrom. }
  assert (Hrec : forall k w, windows (view sys) !! k = Some w ->
     exists feat, featureOf w = Some feat /\ Feature.id feat = k).
  { intros k w Hw. destruct (Hfeat k) as [feat Hf]; [by eexists|].
    exists feat. split; [|by apply featuresMap_keyed].
    unfold featureOf. by rewrite (Hkeyed k w Hw). }
  assert (Hsub : dom (windows (view sys)) ⊆ dom featuresMap).
  { intros k Hk. apply elem_of_dom in Hk. apply elem_of_dom. by apply Hfeat. }
  assert (Hsize : (size (windows (view sys)) <= 6)%nat).
  { rewrite <- featuresMap_size, <- !size_dom. by apply subseteq_size. }
  split; [exact Hrec|]. split; [exact Hsize|]. split.
  - intros desktop. unfold renderedWindows. apply omap_total_length.
    apply Forall_forall. intros w Hw.
    apply elem_of_getVisibleWindows in Hw as (k & Hk & _).
    destruct (Hrec k w Hk) as (feat & -> & _). by eexists.
  - intros f Hf Hnone.
    assert (Hlt : (size (windows (view sys)) < 6)%nat).
    { rewrite <- featuresMap_size, <- !size_dom. apply subset_size.
      split; [exact Hsub|]. intros Hrev.
      assert (Hin : f ∈ dom (windows (view sys)))
        by (apply Hrev; by apply elem_of_dom).
      apply elem_of_dom in Hin as [w Hw]. congruence. }
    eexists _, _.
    split; [apply openWindowUpdater_fresh;
            [done|by apply featuresMap_own_names]|].
    split; [done|]. simpl. lia.
Qed.

Lemma ui_windows_have_features_witness :
  exists sys,
    run [OpenWindow "calculator"; OpenWindow "settings"; Minimize "settings";
         SwitchDesktop "desktop-2"; OpenWindow "about-atlas"]
        initialSystem = Some sys /\
    (size (windows (view sys)) <= 6)%nat.
Proof.
  eexists. split; [vm_compute; reflexivity|].
  exact (proj1 (proj2 (ui_windows_have_features
    [OpenWindow "calculator"; OpenWindow "settings"; Minimize "settings";
     SwitchDesktop "desktop-2"; OpenWindow "about-atlas"] _
    ltac:(vm_compute; reflexivity) ltac:(vm_compute; reflexivity)))).
Defined.

(* ===================================================================== *)
(* The three lists DesktopView derives from the store                      *)
(* ===================================================================== *)

(** X28.  The taskbar buttons of a desktop are exactly its rendered
    windows together with the minimized windows pinned to it; no window is
    both rendered and minimized, and a minimized window pinned to another
    desktop has no button until that desktop is active. *)
Theorem taskbar_lists_visible_and_minimized
    (ws : gmap string WindowState.t) (desktop : string) (w : WindowState.t) :
  (w ∈ getOpenWindows ws desktop <->
   w ∈ getVisibleWindows ws desktop \/
   (w ∈ getMinimizedWindows ws /\ WindowState.desktopId w = Some desktop)) /\
  ~ (w ∈ getVisibleWindows ws desktop /\ w ∈ getMinimizedWindows ws) /\
  (w ∈ getMinimizedWindows ws ->
   WindowState.desktopId w <> Some desktop ->
   w ∉ getOpenWindows ws desktop).
Proof.
  rewrite elem_of_getOpenWindows, elem_of_getVisibleWindows,
    elem_of_getMinimizedWindows.
  split; [split|split].
  - intros (k & Hk & Hd).
    destruct (truthy (WindowState.isMinimized w)) eqn:Hm.
    + right. split; [by exists k|done].
    + left. by exists k.
  - intros [(k & Hk & Hd & _)|[(k & Hk & _) Hd]]; by exists k.
  - intros [(_ & _ & _ & Hv) (_ & _ & Hm)]. congruence.
  - intros _ Hne (k & _ & Hd). congruence.
Qed.

(** X29.  Closing or minimizing the active window leaves `activeId`
    pointing at it, and since it is no longer rendered, no rendered window
    of any desktop is highlighted as active until the next open or focus,
    which highlights exactly the window it names. *)
Theorem no_active_window_after_close_or_minimize
    (st : DesktopState) (a : string) (wa : WindowState.t) :
  keyed (windows st) ->
  activeId st = Some a ->
  windows st !! a = Some wa ->
  activeId (closeWindow a st) = Some a /\
  activeId (onMinimize a st) = Some a /\
  (forall desktop w,
     w ∈ getVisibleWindows (windows (closeWindow a st)) desktop ->
     isActive (closeWindow a st) w = false) /\
  (forall desktop w,
     w ∈ getVisibleWindows (windows (onMinimize a st)) desktop ->
     isActive (onMinimize a st) w = false) /\
  (forall w,
     w ∈ getVisibleWindows (windows (onFocus a st)) (activeDesktopId st) ->
     (isActive (onFocus a st) w = true <-> WindowState.id w = Some a)).
Proof.
  intros Hkeyed Hact Ha. split; [done|]. split; [done|].
  split; [|split].
  - intros desktop w Hw. apply elem_of_getVisibleWindows in Hw as (k & Hk & _).
    simpl in Hk. unfold closeWindowUpdater in Hk.
    apply lookup_delete_Some in Hk as [Hne Hk].
    unfold isActive. simpl. rewrite Hact, (Hkeyed k w Hk).
    by apply bool_decide_eq_false_2.
  - intros desktop w Hw.
    apply (proj2 (onMinimize_hides_only_that_window_aux st a wa Ha) desktop w)
      in Hw as (k & Hne & Hk & _).
    unfold isActive. simpl. rewrite Hact, (Hkeyed k w Hk).
    apply bool_decide_eq_false_2. congruence.
  - intros w Hw. unfold isActive. simpl.
    destruct (WindowState.id w) as [i|]; [|done].
    rewrite bool_decide_eq_true. split; congruence.
Qed.

Lemma no_active_window_after_close_or_minimize_witness :
  let st := openWindow "settings"
              (openWindow "calculator" (view initialSystem)) in
  exists wa,
    keyed (windows st) /\
    activeId st = Some "settings" /\
    windows st !! "settings" = Some wa /\
    forall desktop w,
      w ∈ getVisibleWindows (windows (closeWindow "settings" st)) desktop ->
      isActive (closeWindow "settings" st) w = false.
Proof.
  intros st.
  assert (Hk : keyed (windows st)).
  { apply inv_keyed. do 2 (apply Inv_openWindow; [reflexivity|]).
    apply Inv_initial. }
  eexists. split; [exact Hk|]. split; [reflexivity|].
  split; [vm_compute; reflexivity|].
  exact (proj1 (proj2 (proj2
    (no_active_window_after_close_or_minimize st "settings" _ Hk eq_refl
       ltac:(vm_compute; reflexivity))))).
Defined.

(* ===================================================================== *)
(* Opening a window and what is rendered                                   *)
(* ===================================================================== *)

Lemma elem_of_renderedWindows (ws : gmap string WindowState.t) desktop feat w :
  (feat, w) ∈ renderedWindows ws desktop <->
  w ∈ getVisibleWindows ws desktop /\ featureOf w = Some feat.
Proof.
  unfold renderedWindows. rewrite list_elem_of_omap. split.
  - intros (v & Hv & Hf). destruct (featureOf v) as [feat'|] eqn:Hfeat; [|done].
    by inversion Hf; subst.
  - intros [Hv Hf]. exists w. split; [done|]. by rewrite Hf.
Qed.

(** X2.  After `openWindow(f)`, for any `f`, the record under `f` passes
    the render filter of the active desktop, has the next z-index, and `f`
    is the active id.  When `f` is the id of a feature, and the record the
    store already holds under `f`, if any, carries `f` as its id, a
    `<Window>` is rendered for it with that feature. *)
Theorem openWindow_shows_window (f : string) (st : DesktopState) :
  (exists w,
     windows (openWindow f st) !! f = Some w /\
     w ∈ getVisibleWindows (windows (openWindow f st)) (activeDesktopId st) /\
     WindowState.zIndex w = Some (nextZIndex st + 1) /\
     activeId (openWindow f st) = Some f) /\
  (forall feat,
     featuresMap !! f = Some feat ->
     (forall w0, windows st !! f = Some w0 -> WindowState.id w0 = Some f) ->
     exists w,
       windows (openWindow f st) !! f = Some w /\
       (feat, w) ∈ renderedWindows (windows (openWindow f st))
                      (activeDesktopId st)).
Proof.
  destruct (openWindowUpdater_zIndex (windows st) f (nextZIndex st)
              (activeDesktopId st)) as (w & Hl & Hz & Hd & Hm).
  assert (Hvis :
    w ∈ getVisibleWindows (windows (openWindow f st)) (activeDesktopId st)).
  { apply elem_of_getVisibleWindows. exists f. split; [exact Hl|].
    split; [exact Hd|]. by rewrite Hm. }
  split; [by exists w|].
  intros feat Hfeat Hid. exists w. split; [exact Hl|].
  apply elem_of_renderedWindows. split; [exact Hvis|].
  assert (Hwid : WindowState.id w = Some f).
  { destruct (windows st !! f) as [w0|] eqn:Hf.
    - simpl in Hl. rewrite (openWindowUpdater_existing _ f _ _ w0 Hf) in Hl.
      inversion Hl; subst w. simpl. by apply Hid.
    - simpl in Hl.
      rewrite (openWindowUpdater_fresh _ f _ _ Hf) in Hl
        by (apply featuresMap_own_names; by eexists).
      by inversion Hl; subst w. }
  unfold featureOf. by rewrite Hwid.
Qed.

Lemma openWindow_shows_window_witness :
  let st := view initialSystem in
  exists feat w,
    featuresMap !! "calculator" = Some feat /\
    windows (openWindow "calculator" st) !! "calculator" = Some w /\
    (feat, w) ∈ renderedWindows (windows (openWindow "calculator" st))
                   (activeDesktopId st).
Proof.
  intros st.
  destruct (proj2 (openWindow_shows_window "calculator" st) _
              ltac:(vm_compute; reflexivity))
    as (w & Hl & Hr).
  - intros w0 Hw0. vm_compute in Hw0. discriminate.
  - eexists _, w. split; [vm_compute; reflexivity|]. split; [exact Hl|exact Hr].
Defined.
